(** * ARc 4.1 frontend: streaming completions and transcript reconciliation

  A shallow embedding of
    - [frontend/src/api/completionsApi.ts] (the server-sent-event session:
      [createTimeoutController], [streamCompletionWithEvents]), and
    - [frontend/src/App.tsx] (the callbacks [handleSendMessage] installs,
      [handleRetry], [updateBotMessage], [saveChatToHistory]),
  together with the properties the specification states about them, and
    - [frontend/src/api/client.ts], [frontend/src/api/chatApi.ts],
      [frontend/src/components/ThinkingIndicator.tsx] and the chat handlers
      of [App.tsx], with further properties the code shows.

  Text is represented by its UTF-8 encoding: a [string] is the sequence of
  bytes of the JavaScript string.  Every string operation the source uses
  ([startsWith], [slice], [split], [includes], [===]) is applied to ASCII
  patterns only, for which the byte view and the code-unit view agree;
  [trim] removes the encoded forms of the ECMAScript white space and line
  terminator characters. *)

From Stdlib Require Import String Ascii List Bool NArith ZArith Lia.
From Stdlib Require Import DecimalString.
Import ListNotations.

Local Open Scope string_scope.
Local Open Scope list_scope.

(** JavaScript's [+] on two strings. *)
Infix "+++" := String.append (right associativity, at level 60).

(** ** JavaScript string primitives *)

Module JSString.

Definition LF : ascii := "010"%char.

(** [s.startsWith(p)] *)
Fixpoint startsWith (p s : string) : bool :=
  match p with
  | EmptyString => true
  | String a p' =>
      match s with
      | EmptyString => false
      | String b s' => Ascii.eqb a b && startsWith p' s'
      end
  end.

(** [s.slice(n)] for [0 <= n]: the characters from position [n] on. *)
Fixpoint slice (n : nat) (s : string) : string :=
  match n, s with
  | O, _ => s
  | S _, EmptyString => EmptyString
  | S n', String _ s' => slice n' s'
  end.

(** [s.includes(p)] *)
Fixpoint includes (p s : string) : bool :=
  startsWith p s ||
  match s with
  | EmptyString => false
  | String _ s' => includes p s'
  end.

(** Reversal, used to trim at the end. *)
Fixpoint rev_onto (s acc : string) : string :=
  match s with
  | EmptyString => acc
  | String c s' => rev_onto s' (String c acc)
  end.

Definition reverse (s : string) : string := rev_onto s EmptyString.

(** White space and line terminators of one byte:
    TAB, LF, VT, FF, CR and SP. *)
Definition is_space1 (c : ascii) : bool :=
  let n := nat_of_ascii c in
  (Nat.leb 9 n && Nat.leb n 13) || Nat.eqb n 32.

(** U+00A0, encoded [C2 A0]. *)
Definition is_space2 (c1 c2 : ascii) : bool :=
  Nat.eqb (nat_of_ascii c1) 194 && Nat.eqb (nat_of_ascii c2) 160.

(** U+1680, U+2000..U+200A, U+2028, U+2029, U+202F, U+205F, U+3000 and
    U+FEFF in their three-byte encodings. *)
Definition is_space3 (c1 c2 c3 : ascii) : bool :=
  let a := nat_of_ascii c1 in
  let b := nat_of_ascii c2 in
  let c := nat_of_ascii c3 in
  Nat.eqb a 225 && Nat.eqb b 154 && Nat.eqb c 128 ||
  Nat.eqb a 226 && Nat.eqb b 128 &&
    (Nat.leb 128 c && Nat.leb c 138 ||
     Nat.eqb c 168 || Nat.eqb c 169 || Nat.eqb c 175) ||
  Nat.eqb a 226 && Nat.eqb b 129 && Nat.eqb c 159 ||
  Nat.eqb a 227 && Nat.eqb b 128 && Nat.eqb c 128 ||
  Nat.eqb a 239 && Nat.eqb b 187 && Nat.eqb c 191.

(** [s.trimStart()] *)
Fixpoint trimStart (s : string) : string :=
  match s with
  | EmptyString => EmptyString
  | String c1 s1 =>
      if is_space1 c1 then trimStart s1
      else
        match s1 with
        | EmptyString => s
        | String c2 s2 =>
            if is_space2 c1 c2 then trimStart s2
            else
              match s2 with
              | EmptyString => s
              | String c3 s3 =>
                  if is_space3 c1 c2 c3 then trimStart s3 else s
              end
        end
  end.

(** The same scan over the reversed string, where the bytes of every
    encoded character come last-first. *)
Fixpoint trimStart_reversed (s : string) : string :=
  match s with
  | EmptyString => EmptyString
  | String c1 s1 =>
      if is_space1 c1 then trimStart_reversed s1
      else
        match s1 with
        | EmptyString => s
        | String c2 s2 =>
            if is_space2 c2 c1 then trimStart_reversed s2
            else
              match s2 with
              | EmptyString => s
              | String c3 s3 =>
                  if is_space3 c3 c2 c1 then trimStart_reversed s3 else s
              end
        end
  end.

Definition trimEnd (s : string) : string :=
  reverse (trimStart_reversed (reverse s)).

(** [s.trim()] *)
Definition trim (s : string) : string := trimEnd (trimStart s).

(** When [parts] is [r.split(sep)], [cons_char c parts] is
    [(c + r).split(sep)] for a character [c] other than the separator. *)
Definition cons_char (c : ascii) (parts : list string) : list string :=
  match parts with
  | [] => [String c EmptyString]
  | p :: ps => String c p :: ps
  end.

(** [s.split('\n')]: never empty, [''.split('\n')] is [['']]. *)
Fixpoint split_LF (s : string) : list string :=
  match s with
  | EmptyString => [EmptyString]
  | String c s' =>
      if Ascii.eqb c LF then EmptyString :: split_LF s'
      else cons_char c (split_LF s')
  end.

(** [String(n)] for a non-negative integer. *)
Definition of_N (n : N) : string := NilEmpty.string_of_uint (N.to_uint n).

End JSString.

Import JSString.

(** ** JSON values and the JavaScript runtime *)

Section JSON.

(** The IEEE doubles of the runtime are kept abstract. *)
Variable number : Type.

#[warnings="-register-all"]
Inductive JValue : Type :=
  | JNull
  | JBool (b : bool)
  | JNumber (n : number)
  | JString (s : string)
  | JArray (items : list JValue)
  | JObject (props : list (string * JValue)).

(** Own properties of an object, as [JSON.parse] left them: a key occurs
    once. *)
Fixpoint lookup (k : string) (props : list (string * JValue)) : option JValue :=
  match props with
  | [] => None
  | (k', v) :: rest => if String.eqb k k' then Some v else lookup k rest
  end.

End JSON.

Arguments JNull {number}.
Arguments JBool {number} b.
Arguments JNumber {number} n.
Arguments JString {number} s.
Arguments JArray {number} items.
Arguments JObject {number} props.
Arguments lookup {number} k props.

(** What the code takes from the platform: numbers, [JSON.parse], and a
  [TextDecoder] used with [{ stream: true }], which consumes its input byte
  by byte, keeps an incomplete sequence for the next call and emits the
  text of each completed one. *)
Class Runtime : Type := {
  number : Type;
  number_truthy : number -> bool;
  number_toString : number -> string;
  JSON_parse : string -> option (JValue number);
  TextDecoder : Type;
  new_TextDecoder : TextDecoder;
  decode_byte : TextDecoder -> Byte.byte -> TextDecoder * string
  }.

Section Values.

Context {RT : Runtime}.

Definition Json : Type := JValue number.

(** A JavaScript value that may be [undefined]. *)
Definition Value : Type := option Json.

Definition undefined : Value := None.

(** [ToBoolean] *)
Definition truthy (v : Value) : bool :=
  match v with
  | None => false
  | Some JNull => false
  | Some (JBool b) => b
  | Some (JNumber n) => number_truthy n
  | Some (JString s) => negb (String.eqb s "")
  | Some (JArray _) => true
  | Some (JObject _) => true
  end.

(** Whether [String(v)] returns.  [JSON.parse] makes every key an own
    property, so the [toString] of an object with a key of that name is
    not a function, and neither is its [valueOf] one that gives a
    primitive: [String(v)], [s + v] and [new Error(v)] throw a [TypeError].
    An array prints its elements. *)
Fixpoint printable (v : Json) : bool :=
  match v with
  | JArray items => forallb printable items
  | JObject props =>
      match lookup "toString" props with
      | Some _ => false
      | None => true
      end
  | _ => true
  end.

(** [String(v)] for a value that is [printable], which is also what
    [s + v] and [new Error(v)] apply: arrays join their elements with
    commas, [null] elements print as the empty string, and a plain object
    prints as [[object Object]]. *)
Fixpoint js_String (v : Json) : string :=
  match v with
  | JNull => "null"
  | JBool true => "true"
  | JBool false => "false"
  | JNumber n => number_toString n
  | JString s => s
  | JArray items =>
      (fix join (l : list Json) : string :=
         match l with
         | [] => ""
         | x :: l' =>
             let sx := match x with JNull => "" | _ => js_String x end in
             match l' with
             | [] => sx
             | _ :: _ => sx +++ "," +++ join l'
             end
         end) items
  | JObject _ => "[object Object]"
  end.

Definition ToString (v : Value) : string :=
  match v with
  | None => "undefined"
  | Some j => js_String j
  end.

(** [v || fallback] *)
Definition or_else (v : Value) (fallback : Json) : Json :=
  match v with
  | Some j => if truthy v then j else fallback
  | None => fallback
  end.

(** [v.k] for one of the keys the code reads ([text], [message], [detail],
    [id], [title], [content], [similarity], [type]): [None] is the
    [TypeError] of reading a property of [null]; primitives and arrays
    have no property of these names. *)
Definition member (v : Json) (k : string) : option Value :=
  match v with
  | JNull => None
  | JObject props => Some (lookup k props)
  | _ => Some undefined
  end.

End Values.

(** ** Data model: types.ts *)

Module Source.
(** A citation as [onSources] receives it.  The fields are copied from
    untyped JSON, so each holds whatever value the server sent. *)
Record t {V : Type} : Type := mk {
  id : V;
  title : V;
  content : V;
  similarity : V;
  type : V
  }.
Arguments t V : clear implicits.
End Source.

Module SearchStep.
Inductive Status : Type := pending | in_progress | completed.
Record t : Type := mk { id : string; label : string; status : Status }.
End SearchStep.

Module Message.
Inductive Role : Type := user | assistant | system.
Record t {S : Type} : Type := mk {
  id : string;
  role : Role;
  content : string;
  reasoning : option string;
  timestamp : N;
  sources : option (list S);
  searchSteps : option (list SearchStep.t);
  isThinking : option bool
  }.
Arguments t S : clear implicits.
End Message.

(** ** The streaming session: api/completionsApi.ts

    A session is modelled by the trace of what it does to the outside:
    the timer calls, the callbacks with their arguments, the release of the
    reader.  The callbacks are the caller's; they are taken to return
    normally.  The network is a script: [fetch] and the reads of the chunks
    settle after the latency the script gives them, unless the timer aborts
    them first; after its last chunk a body ends, fails, or stalls, and a
    body that stalls leaves the read, or [response.json()], pending for as
    long as nothing aborts it. *)

(** A JavaScript [Error] object. *)
Record JSError : Type := { err_name : string; err_message : string }.

(** [new Error(message)] *)
Definition new_Error (message : string) : JSError :=
  {| err_name := "Error"; err_message := message |}.

(** The [TypeError] thrown when a value that is not [printable] is
    converted to a string, with the message V8 gives it. *)
Definition conversionError : JSError :=
  {| err_name := "TypeError";
     err_message := "Cannot convert object to primitive value" |}.

(** A thrown value: an [Error], or anything else, known by its [String()]. *)
Inductive Thrown : Type :=
  | ThrowError (e : JSError)
  | ThrowValue (asString : string).

Definition REQUEST_TIMEOUT_MS : N := 30000.

(** Control flow of a loop body: go on with the next iteration, or [return]
  from the enclosing function. *)
Inductive Flow (A : Type) : Type :=
  | Continue (a : A)
  | Return.
Arguments Continue {A} a.
Arguments Return {A}.

(** An awaited operation of the environment: how long it takes to settle,
  and what it settles to. *)
Record Timed (A : Type) : Type := after { latency : N; outcome : A }.
Arguments after {A} latency outcome.
Arguments latency {A} _.
Arguments outcome {A} _.

Section Session.

Context {RT : Runtime}.

Definition SourceT : Type := Source.t Value.

Inductive Callback : Type :=
  | OnContent (chunk : Json)
  | OnReasoning (chunk : Json)
  | OnSources (sources : list SourceT)
  | OnComplete
  | OnError (error : JSError).

(** What a session does to the world outside, in order. *)
Inductive Effect : Type :=
  | SetTimeout (ms : N)        (* setTimeout(() => controller.abort(), ms) *)
  | ClearTimeout               (* clearTimeout(timeoutId) *)
  | TimerFires (elapsed : N)   (* the timer callback runs controller.abort() *)
  | Call (c : Callback)
  | ReleaseLock.               (* reader.releaseLock() *)

Definition Step (A : Type) : Type := list Effect * Flow A.

(** [new Error(v)] for a value from the wire; [None] when the conversion
    of [v] to a string throws. *)
Definition Error_of (v : Json) : option JSError :=
  if printable v then Some (new_Error (js_String v)) else None.

Definition and_then {A B : Type} (m : Step A) (k : A -> Step B) : Step B :=
  match m with
  | (tr, Continue a) => let (tr', r) := k a in (tr ++ tr', r)
  | (tr, Return) => (tr, Return)
  end.

(** The two locals the line loop assigns. *)
Record Dispatch : Type := {
  currentEvent : string;
  hasReceivedContent : bool
  }.

(** [s => ({ id: s.id, title: s.title, ... })]; [None] is the [TypeError]
    of a [null] element. *)
Definition to_source (s : Json) : option SourceT :=
  match member s "id", member s "title", member s "content",
        member s "similarity", member s "type" with
  | Some i, Some t, Some c, Some sim, Some ty => Some (Source.mk Value i t c sim ty)
  | _, _, _, _, _ => None
  end.

(** [data.map(...)]: an exception in the arrow function leaves [map]. *)
Fixpoint map_sources (data : list Json) : option (list SourceT) :=
  match data with
  | [] => Some []
  | s :: rest =>
      match to_source s with
      | None => None
      | Some src =>
          match map_sources rest with
          | None => None
          | Some srcs => Some (src :: srcs)
          end
      end
  end.

(** The [try { JSON.parse ...; switch (currentEvent) ... } catch { }] of a
    data line.  Every exception ends in the empty [catch], after which the
    loop goes on; the effects that ran before it stay.  In the [error] case
    [clearTimeout()] has run when [data.message] or [new Error(...)]
    throws. *)
Definition handle_data (d : Dispatch) (dataStr : string) : Step Dispatch :=
  match JSON_parse dataStr with
  | None => ([], Continue d)
  | Some data =>
      if String.eqb (currentEvent d) "content" then
        match member data "text" with
        | None => ([], Continue d)
        | Some text =>
            match text with
            | Some chunk =>
                if truthy text then
                  ([Call (OnContent chunk)],
                   Continue {| currentEvent := currentEvent d;
                               hasReceivedContent := true |})
                else ([], Continue d)
            | None => ([], Continue d)
            end
        end
      else if String.eqb (currentEvent d) "reasoning" then
        match member data "text" with
        | None => ([], Continue d)
        | Some text =>
            match text with
            | Some chunk =>
                if truthy text then ([Call (OnReasoning chunk)], Continue d)
                else ([], Continue d)
            | None => ([], Continue d)
            end
        end
      else if String.eqb (currentEvent d) "sources" then
        match data with
        | JArray items =>
            match map_sources items with
            | None => ([], Continue d)
            | Some srcs => ([Call (OnSources srcs)], Continue d)
            end
        | _ => ([], Continue d)
        end
      else if String.eqb (currentEvent d) "error" then
        match member data "message" with
        | None => ([ClearTimeout], Continue d)
        | Some message =>
            match Error_of (or_else message (JString "Unknown error from server")) with
            | None => ([ClearTimeout], Continue d)
            | Some e => ([ClearTimeout; Call (OnError e)], Return)
            end
        end
      else if String.eqb (currentEvent d) "done" then
        ([ClearTimeout; Call OnComplete], Return)
      else ([], Continue d)
  end.

(** The body of [for (const line of lines)]. *)
Definition handle_line (d : Dispatch) (line : string) : Step Dispatch :=
  if startsWith "event: " line then
    ([], Continue {| currentEvent := trim (slice 7 line);
                     hasReceivedContent := hasReceivedContent d |})
  else if startsWith "data: " line then
    handle_data d (slice 6 line)
  else if String.eqb line "" then
    ([], Continue {| currentEvent := "";
                     hasReceivedContent := hasReceivedContent d |})
  else ([], Continue d).

Fixpoint for_lines (d : Dispatch) (lines : list string) : Step Dispatch :=
  match lines with
  | [] => ([], Continue d)
  | line :: rest => and_then (handle_line d line) (fun d' => for_lines d' rest)
  end.

(** [decoder.decode(value, { stream: true })] *)
Fixpoint decode (dec : TextDecoder) (value : list Byte.byte) : TextDecoder * string :=
  match value with
  | [] => (dec, "")
  | b :: rest =>
      let (dec1, s1) := decode_byte dec b in
      let (dec2, s2) := decode dec1 rest in
      (dec2, s1 +++ s2)
  end.

(** The locals of the read loop. *)
Record Locals : Type := {
  decoder : TextDecoder;
  buffer : string;
  dispatch : Dispatch
  }.

Definition initial : Locals :=
  {| decoder := new_TextDecoder;
     buffer := "";
     dispatch := {| currentEvent := ""; hasReceivedContent := false |} |}.

(** [lines.pop() || ''] and what is left of [lines]. *)
Definition pop (lines : list string) : list string * string :=
  (removelast lines, last lines "").

(** One iteration of [while (true)] after a successful read. *)
Definition handle_chunk (st : Locals) (value : list Byte.byte) : Step Locals :=
  let (dec, text) := decode (decoder st) value in
  let (lines, rest) := pop (split_LF (buffer st +++ text)) in
  and_then (for_lines (dispatch st) lines)
           (fun d => ([], Continue {| decoder := dec; buffer := rest; dispatch := d |})).

(** The read loop on a stream whose chunks all arrive. *)
Fixpoint read_chunks (st : Locals) (values : list (list Byte.byte)) : Step Locals :=
  match values with
  | [] => ([], Continue st)
  | value :: rest => and_then (handle_chunk st value) (fun st' => read_chunks st' rest)
  end.

(** The code after the loop, reached by [break]. *)
Definition on_stream_end (st : Locals) : list Effect :=
  [ClearTimeout;
   if hasReceivedContent (dispatch st) then Call OnComplete
   else Call (OnError (new_Error "Connection closed without receiving response"))].

(** The outer [catch (error)]. *)
Definition on_catch (error : Thrown) : list Effect :=
  ClearTimeout ::
  match error with
  | ThrowError e =>
      if String.eqb (err_name e) "AbortError" then
        [Call (OnError (new_Error "Request timed out. Please try again."))]
      else if includes "Failed to fetch" (err_message e)
              || includes "NetworkError" (err_message e) then
        [Call (OnError (new_Error "Network error. Please check your connection."))]
      else [Call (OnError e)]
  | ThrowValue s => [Call (OnError (new_Error s))]
  end.

(** *** The network and the clock

    A session awaits [fetch], then [reader.read()] once per iteration.
    The environment says how long each awaited operation takes to settle
    and what it settles to.  Time is counted in milliseconds from the start
    of the session; the synchronous code between two awaits takes none. *)

(** How the body stream ends: [{ done: true }], a rejected read, or a
    read that never settles by itself (its latency is then of no
    account). *)
Inductive StreamEnd : Type :=
  | EndOfStream
  | StreamFails (reason : Thrown)
  | StreamStalls.

Definition is_StreamStalls (e : StreamEnd) : bool :=
  match e with StreamStalls => true | _ => false end.

Record Body : Type := {
  chunks : list (Timed (list Byte.byte));
  ending : Timed StreamEnd
  }.

Record Response : Type := {
  ok : bool;
  status : N;
  statusText : string;
  json : option Json;        (* what response.json() settles to; None when it rejects *)
  body : option Body         (* response.body; None when it is null *)
  }.

Inductive FetchResult : Type :=
  | Rejected (reason : Thrown)
  | Resolved (response : Response).

(** Whether the body of the response never comes to an end. *)
Definition body_stalls (response : Response) : bool :=
  match body response with
  | Some b => is_StreamStalls (outcome (ending b))
  | None => false
  end.

Definition stalls (request : Timed FetchResult) : bool :=
  match outcome request with
  | Resolved response => body_stalls response
  | Rejected _ => false
  end.

(** What awaiting an operation that no timer guards comes to. *)
Inductive Awaited (A : Type) : Type :=
  | NeverSettles
  | SettlesTo (a : A).
Arguments NeverSettles {A}.
Arguments SettlesTo {A} a.

(** [await response.json()], which reads the body to its end: it stays
    pending when the body stalls, and otherwise settles to [json response]. *)
Definition response_json (response : Response) : Awaited (option Json) :=
  if body_stalls response then NeverSettles else SettlesTo (json response).

(** The timer of [createTimeoutController]. *)
Record Timer : Type := { deadline : N; armed : bool }.

(** [createTimeoutController(timeoutMs)], called at time 0. *)
Definition createTimeoutController (timeoutMs : N) : list Effect * Timer :=
  ([SetTimeout timeoutMs], {| deadline := timeoutMs; armed := true |}).

Definition is_ClearTimeout (e : Effect) : bool :=
  match e with ClearTimeout => true | _ => false end.

(** The timer after the effects [tr] have run. *)
Definition timer_after (tr : list Effect) (tm : Timer) : Timer :=
  {| deadline := deadline tm;
     armed := armed tm && negb (existsb is_ClearTimeout tr) |}.

(** What [controller.abort()] makes a pending [fetch] or [read] reject with. *)
Definition AbortError : JSError :=
  {| err_name := "AbortError"; err_message := "signal is aborted without reason" |}.

(** Awaiting [op] at time [now]: it settles at [now + latency], unless the
    armed timer's deadline passes first ([None]). *)
Definition await {A : Type} (tm : Timer) (now : N) (op : Timed A) : option (N * A) :=
  if armed tm && (deadline tm <? now + latency op)%N then None
  else Some ((now + latency op)%N, outcome op).

(** How the [while (true)] loop is left, if it is. *)
Inductive Exit : Type :=
  | Broke (st : Locals)        (* break: the stream is done *)
  | Returned                   (* return, after an error or done event *)
  | Threw (error : Thrown)     (* reader.read() rejected *)
  | Hangs.                     (* reader.read() stays pending for ever *)

(** The timer runs out while an operation is pending: [abort()] makes the
    operation reject. *)
Definition fires (tm : Timer) : list Effect * Exit :=
  ([TimerFires (deadline tm)], Threw (ThrowError AbortError)).

Fixpoint read_loop (tm : Timer) (now : N) (st : Locals)
         (pending : list (Timed (list Byte.byte))) (ending : Timed StreamEnd)
  : list Effect * Exit :=
  match pending with
  | [] =>
      match outcome ending with
      | EndOfStream =>
          match await tm now ending with
          | None => fires tm
          | Some _ => ([], Broke st)
          end
      | StreamFails reason =>
          match await tm now ending with
          | None => fires tm
          | Some _ => ([], Threw reason)
          end
      | StreamStalls => if armed tm then fires tm else ([], Hangs)
      end
  | read :: rest =>
      match await tm now read with
      | None => fires tm
      | Some (t, value) =>
          match handle_chunk st value with
          | (tr, Return) => (tr, Returned)
          | (tr, Continue st') =>
              let (tr', ex) := read_loop (timer_after tr tm) t st' rest ending in
              (tr ++ tr', ex)
          end
      end
  end.

(** [errorMessage] when [throw new Error(errorMessage)] is reached, for a
    response that is not [ok] and whose [response.json()] settled to
    [errorData]; it is whatever value the server put there. *)
Definition errorMessage (response : Response) (errorData : option Json) : Json :=
  match errorData with
  | None => JString ("HTTP " +++ of_N (status response) +++ ": " +++ statusText response)
  | Some errorData =>
      match member errorData "detail", member errorData "message" with
      | Some detail, Some message =>
          or_else detail
            (or_else message (JString ("HTTP " +++ of_N (status response))))
      | _, _ =>
          JString ("HTTP " +++ of_N (status response) +++ ": " +++ statusText response)
      end
  end.

(** What [throw new Error(errorMessage)] throws: the error, or the
    [TypeError] of the conversion. *)
Definition thrown_for (errorMessage : Json) : Thrown :=
  ThrowError match Error_of errorMessage with
             | Some e => e
             | None => conversionError
             end.

(** How the outer [try] block is left, if it is. *)
Inductive Completion : Type :=
  | Completes                  (* it ran to its end, or returned *)
  | Throws (error : Thrown)
  | NeverEnds.                 (* an await stays pending for ever *)

(** The outer [try] block: its effects, and how it is left. *)
Definition try_block (tm : Timer) (request : Timed FetchResult)
  : list Effect * Completion :=
  match await tm 0 request with
  | None => ([TimerFires (deadline tm)], Throws (ThrowError AbortError))
  | Some (_, Rejected reason) => ([], Throws reason)
  | Some (t, Resolved response) =>
      if negb (ok response) then
        match response_json response with
        | NeverSettles => ([ClearTimeout], NeverEnds)
        | SettlesTo errorData =>
            ([ClearTimeout], Throws (thrown_for (errorMessage response errorData)))
        end
      else
        match body response with
        | None =>
            ([ClearTimeout], Throws (ThrowError (new_Error "No response body received")))
        | Some b =>
            match read_loop tm t initial (chunks b) (ending b) with
            | (tr, Broke st) => (tr ++ on_stream_end st ++ [ReleaseLock], Completes)
            | (tr, Returned) => (tr ++ [ReleaseLock], Completes)
            | (tr, Threw error) => (tr ++ [ReleaseLock], Throws error)
            | (tr, Hangs) => (tr, NeverEnds)
            end
        end
  end.

(** [streamCompletionWithEvents(messages, customInstructions, callbacks)].
    The two data arguments only fill the request body; what the function
    does is decided by how the network answers.  The trace of a session
    that never ends is all it ever does. *)
Definition streamCompletionWithEvents (request : Timed FetchResult) : list Effect :=
  let (tr0, tm) := createTimeoutController REQUEST_TIMEOUT_MS in
  let (tr, completion) := try_block tm request in
  tr0 ++ tr ++
  match completion with
  | Completes => []
  | Throws error => on_catch error
  | NeverEnds => []
  end.

(** Whether the session never ends: an await stays pending, and no timer
    is left to abort it. *)
Definition never_ends (request : Timed FetchResult) : bool :=
  match snd (try_block (snd (createTimeoutController REQUEST_TIMEOUT_MS)) request) with
  | NeverEnds => true
  | _ => false
  end.

(** The callbacks of a trace, in order. *)
Fixpoint calls (tr : list Effect) : list Callback :=
  match tr with
  | [] => []
  | Call c :: rest => c :: calls rest
  | _ :: rest => calls rest
  end.

Definition is_terminal (c : Callback) : bool :=
  match c with
  | OnComplete | OnError _ => true
  | _ => false
  end.

Definition is_OnContent (c : Callback) : bool :=
  match c with OnContent _ => true | _ => false end.

Definition is_OnComplete (c : Callback) : bool :=
  match c with OnComplete => true | _ => false end.

Definition is_OnError (c : Callback) : bool :=
  match c with OnError _ => true | _ => false end.

Definition count (p : Callback -> bool) (tr : list Effect) : nat :=
  length (filter p (calls tr)).

End Session.


(** ** The transcript: App.tsx

  React state is passed explicitly.  [setMessages(prev => ...)] and the
  other functional updates run in the order they are issued, each on the
  state the previous one left, so [messages] is the list they lead to.
  When React runs them is its own business: the assignment to the local
  [finalMessages] that the updater of a delta holds takes place only then
  ([render]).  The scroll position, the sidebar and the other display state
  take no part in what follows and are left out. *)

Section App.

Context {RT : Runtime}.

Definition Msg : Type := Message.t SourceT.

(** [lastSendRef.current] when it is not [null]. *)
Record Snapshot : Type := {
  snap_messages : list Msg;
  snap_input : string
  }.

Record AppState : Type := {
  messages : list Msg;
  input : string;
  isLoading : bool;
  error : option string;
  hasSavedCurrentChat : bool;
  lastSendRef : option Snapshot;
  finalMessages : list Msg;         (* local of the send in flight *)
  queuedFinal : option (list Msg);  (* what the queued updaters will assign to it *)
  saveRequests : list (list Msg)    (* calls of saveChat(sessionId, _) *)
  }.

Definition set_messages (f : list Msg -> list Msg) (st : AppState) : AppState :=
  {| messages := f (messages st); input := input st; isLoading := isLoading st;
     error := error st; hasSavedCurrentChat := hasSavedCurrentChat st;
     lastSendRef := lastSendRef st; finalMessages := finalMessages st;
     queuedFinal := queuedFinal st;
     saveRequests := saveRequests st |}.

Definition set_input (v : string) (st : AppState) : AppState :=
  {| messages := messages st; input := v; isLoading := isLoading st;
     error := error st; hasSavedCurrentChat := hasSavedCurrentChat st;
     lastSendRef := lastSendRef st; finalMessages := finalMessages st;
     queuedFinal := queuedFinal st;
     saveRequests := saveRequests st |}.

Definition set_isLoading (v : bool) (st : AppState) : AppState :=
  {| messages := messages st; input := input st; isLoading := v;
     error := error st; hasSavedCurrentChat := hasSavedCurrentChat st;
     lastSendRef := lastSendRef st; finalMessages := finalMessages st;
     queuedFinal := queuedFinal st;
     saveRequests := saveRequests st |}.

Definition set_error (v : option string) (st : AppState) : AppState :=
  {| messages := messages st; input := input st; isLoading := isLoading st;
     error := v; hasSavedCurrentChat := hasSavedCurrentChat st;
     lastSendRef := lastSendRef st; finalMessages := finalMessages st;
     queuedFinal := queuedFinal st;
     saveRequests := saveRequests st |}.

Definition set_lastSendRef (v : option Snapshot) (st : AppState) : AppState :=
  {| messages := messages st; input := input st; isLoading := isLoading st;
     error := error st; hasSavedCurrentChat := hasSavedCurrentChat st;
     lastSendRef := v; finalMessages := finalMessages st;
     queuedFinal := queuedFinal st;
     saveRequests := saveRequests st |}.

Definition set_finalMessages (v : list Msg) (st : AppState) : AppState :=
  {| messages := messages st; input := input st; isLoading := isLoading st;
     error := error st; hasSavedCurrentChat := hasSavedCurrentChat st;
     lastSendRef := lastSendRef st; finalMessages := v;
     queuedFinal := queuedFinal st;
     saveRequests := saveRequests st |}.

Definition set_queuedFinal (v : option (list Msg)) (st : AppState) : AppState :=
  {| messages := messages st; input := input st; isLoading := isLoading st;
     error := error st; hasSavedCurrentChat := hasSavedCurrentChat st;
     lastSendRef := lastSendRef st; finalMessages := finalMessages st;
     queuedFinal := v; saveRequests := saveRequests st |}.

(** React runs the updaters it has queued: the latest assignment to
    [finalMessages] they hold takes place. *)
Definition render (st : AppState) : AppState :=
  match queuedFinal st with
  | Some updated => set_queuedFinal None (set_finalMessages updated st)
  | None => st
  end.

(** [await saveChat(sessionId, msgs); setHasSavedCurrentChat(true)] inside
    [try]; [saved] tells whether the request succeeded. *)
Definition saveChat (saved : bool) (msgs : list Msg) (st : AppState) : AppState :=
  {| messages := messages st; input := input st; isLoading := isLoading st;
     error := error st;
     hasSavedCurrentChat := if saved then true else hasSavedCurrentChat st;
     lastSendRef := lastSendRef st; finalMessages := finalMessages st;
     queuedFinal := queuedFinal st;
     saveRequests := saveRequests st ++ [msgs] |}.

(** [{ ...m, content: c, isThinking: false }] and the like. *)
Definition with_content (c : string) (m : Msg) : Msg :=
  Message.mk _ (Message.id m) (Message.role m) c (Message.reasoning m)
             (Message.timestamp m) (Message.sources m) (Message.searchSteps m)
             (Message.isThinking m).

Definition with_reasoning (r : string) (m : Msg) : Msg :=
  Message.mk _ (Message.id m) (Message.role m) (Message.content m) (Some r)
             (Message.timestamp m) (Message.sources m) (Message.searchSteps m)
             (Message.isThinking m).

Definition with_isThinking (b : bool) (m : Msg) : Msg :=
  Message.mk _ (Message.id m) (Message.role m) (Message.content m)
             (Message.reasoning m) (Message.timestamp m) (Message.sources m)
             (Message.searchSteps m) (Some b).

Definition with_sources (srcs : list SourceT) (steps : list SearchStep.t) (m : Msg) : Msg :=
  Message.mk _ (Message.id m) (Message.role m) (Message.content m)
             (Message.reasoning m) (Message.timestamp m) (Some srcs)
             (Some steps) (Message.isThinking m).

(** [prev.map(m => m.id === id ? f(m) : m)] *)
Definition update_where (id : string) (f : Msg -> Msg) (msgs : list Msg) : list Msg :=
  map (fun m => if String.eqb (Message.id m) id then f m else m) msgs.

(** [updateBotMessage(id, updates)], with the updates as a function. *)
Definition updateBotMessage (id : string) (updates : Msg -> Msg) (st : AppState) : AppState :=
  set_messages (update_where id updates) st.

(** [m.reasoning || ''] *)
Definition or_empty (r : option string) : string :=
  match r with
  | Some s => s
  | None => ""
  end.

(** The callbacks [handleSendMessage] passes to the session, for the
    assistant message [botMsgId].  The updater of a delta ends with
    [finalMessages = updated]; the callback only queues it. *)

Definition onContent (botMsgId chunk : string) (st : AppState) : AppState :=
  let updated :=
    update_where botMsgId
      (fun m => with_isThinking false (with_content (Message.content m +++ chunk) m))
      (messages st) in
  set_queuedFinal (Some updated) (set_messages (fun _ => updated) st).

Definition onReasoning (botMsgId chunk : string) (st : AppState) : AppState :=
  let updated :=
    update_where botMsgId
      (fun m => with_reasoning (or_empty (Message.reasoning m) +++ chunk) m)
      (messages st) in
  set_queuedFinal (Some updated) (set_messages (fun _ => updated) st).

Definition onSources (botMsgId : string) (sources : list SourceT) (st : AppState) : AppState :=
  updateBotMessage botMsgId
    (with_sources sources
       [SearchStep.mk "1" "Analyzing documents..." SearchStep.completed])
    st.

(** [saveChatToHistory(currentMessages)] *)
Definition saveChatToHistory (saved : bool) (currentMessages : list Msg) (st : AppState)
  : AppState :=
  if Nat.ltb (length currentMessages) 2 then st
  else if existsb (fun m =>
                     match Message.role m with
                     | Message.assistant =>
                         Nat.ltb 0 (String.length (trim (Message.content m)))
                     | _ => false
                     end) currentMessages
  then saveChat saved currentMessages st
  else st.

Definition onComplete (botMsgId : string) (saved : bool) (st : AppState) : AppState :=
  let st1 := set_isLoading false st in
  let st2 := updateBotMessage botMsgId (with_isThinking false) st1 in
  let st3 := set_lastSendRef None st2 in
  if Nat.ltb 0 (length (finalMessages st3))
  then saveChatToHistory saved (finalMessages st3) st3
  else st3.

Definition onError (botMsgId : string) (err : JSError) (st : AppState) : AppState :=
  let st1 := set_isLoading false st in
  let errorMsg := if String.eqb (err_message err) "" then "Unknown error occurred"
                  else err_message err in
  let st2 := updateBotMessage botMsgId
               (fun m => with_isThinking false (with_content ("**Error:** " +++ errorMsg) m))
               st1 in
  set_error (Some errorMsg) st2.

(** The four readings of [Date.now()] in [handleSendMessage]. *)
Record Clock : Type := {
  now_userId : N;
  now_userTimestamp : N;
  now_botId : N;
  now_botTimestamp : N
  }.

(** A send that was accepted: the id of the assistant message, the
    messages sent as context, and the state when the stream starts. *)
Record Started : Type := {
  botMsgId : string;
  newMessages : list Msg;
  state : AppState
  }.

(** [handleSendMessage] up to the call of [streamCompletionWithEvents];
    [None] when the guard returns at once.  [let finalMessages = []] is a
    new local: no updater queued before assigns it. *)
Definition handleSendMessage (clock : Clock) (saved : bool) (st : AppState)
  : option Started :=
  if String.eqb (trim (input st)) "" || isLoading st then None
  else
    let st1 := set_error None st in
    let userMsg : Msg :=
      Message.mk _ (of_N (now_userId clock)) Message.user (trim (input st))
                 None (now_userTimestamp clock) None None None in
    let st2 := set_lastSendRef
                 (Some {| snap_messages := messages st; snap_input := trim (input st) |})
                 st1 in
    let st3 := set_input "" st2 in
    let newMessages := messages st ++ [userMsg] in
    let st4 := set_isLoading true (set_messages (fun _ => newMessages) st3) in
    let botMsgId := of_N (now_botId clock + 1) in
    let initialSteps := [SearchStep.mk "1" "Processing..." SearchStep.in_progress] in
    let botMsg : Msg :=
      Message.mk _ botMsgId Message.assistant "" (Some "")
                 (now_botTimestamp clock) None (Some initialSteps) (Some true) in
    let st5 := set_messages (fun prev => prev ++ [botMsg]) st4 in
    let st6 := if hasSavedCurrentChat st5 then st5 else saveChat saved newMessages st5 in
    Some {| botMsgId := botMsgId;
            newMessages := newMessages;
            state := set_queuedFinal None (set_finalMessages [] st6) |}.

(** [handleRetry]: the new state, and whether a click on the send button
    was scheduled. *)
Definition handleRetry (st : AppState) : AppState * bool :=
  match lastSendRef st with
  | Some snap =>
      (set_error None
         (set_messages (fun _ => snap_messages snap) (set_input (snap_input snap) st)),
       true)
  | None => (st, false)
  end.

(** A callback of the session arriving at the page.  The chunk of a delta
    is appended with [+], which prints a value that is not a string; the
    chunk is taken to be [printable]. *)
Definition deliver (botMsgId : string) (saved : bool) (c : Callback) (st : AppState)
  : AppState :=
  match c with
  | OnContent chunk => onContent botMsgId (js_String chunk) st
  | OnReasoning chunk => onReasoning botMsgId (js_String chunk) st
  | OnSources sources => onSources botMsgId sources st
  | OnComplete => onComplete botMsgId saved st
  | OnError err => onError botMsgId err st
  end.

Definition deliver_all (botMsgId : string) (saved : bool) (cs : list Callback)
           (st : AppState) : AppState :=
  fold_left (fun acc c => deliver botMsgId saved c acc) cs st.

(** What happens to the page while a session runs: a callback arrives, or
    React renders. *)
Inductive PageEvent : Type :=
  | Delivers (c : Callback)
  | Renders.

Definition page_step (botMsgId : string) (saved : bool) (e : PageEvent) (st : AppState)
  : AppState :=
  match e with
  | Delivers c => deliver botMsgId saved c st
  | Renders => render st
  end.

Definition run (botMsgId : string) (saved : bool) (events : list PageEvent)
           (st : AppState) : AppState :=
  fold_left (fun acc e => page_step botMsgId saved e acc) events st.



(** The assistant message a send appended: the last one. *)
Definition bot_message (st : AppState) : option Msg :=
  match rev (messages st) with
  | m :: _ => Some m
  | [] => None
  end.

Definition emptyState : AppState :=
  {| messages := []; input := ""; isLoading := false; error := None;
     hasSavedCurrentChat := false; lastSendRef := None; finalMessages := [];
     queuedFinal := None; saveRequests := [] |}.

End App.

(** ** A reference runtime

  An executable instance of [Runtime], on which the model runs on concrete
  streams.  Its numbers are the IEEE 754 doubles: a literal denotes the
  double nearest to it, and a double prints as [Number::toString] has it,
  with the fewest digits that give the double back.  Its [JSON.parse]
  follows the JSON grammar.  Its decoder is the UTF-8 decoder of the
  Encoding standard in stream mode. *)

Module Reference.

Module Double.

(** A double that is not NaN: [mantissa * 2^(exponent - 1074)] with
    [mantissa < 2^53], or an infinity. *)
Inductive t : Type :=
  | Finite (negative : bool) (mantissa : N) (exponent : N)
  | Infinite (negative : bool).

(** [a / b] rounded to the nearest integer, ties to even. *)
Definition round_div (a b : N) : N :=
  let q := (a / b)%N in
  let r := (a mod b)%N in
  match (2 * r ?= b)%N with
  | Lt => q
  | Gt => (q + 1)%N
  | Eq => if N.even q then q else (q + 1)%N
  end.

(** The double nearest to [num / den], for [den] positive. *)
Definition of_ratio (negative : bool) (num den : N) : t :=
  let a := (num * 2 ^ 1074)%N in
  let whole := (a / den)%N in
  let e := if (whole =? 0)%N then 0%N else (N.log2 whole - 52)%N in
  let m := round_div a (den * 2 ^ e)%N in
  let (m, e) := if (m =? 2 ^ 53)%N then ((2 ^ 52)%N, (e + 1)%N) else (m, e) in
  if (2045 <? e)%N then Infinite negative else Finite negative m e.

(** The value of the digits [s], read in base ten. *)
Fixpoint digits_value (s : string) (acc : N) : N :=
  match s with
  | EmptyString => acc
  | String c r => digits_value r (10 * acc + (N_of_ascii c - 48))%N
  end.

(** The number a JSON literal denotes: sign, integer digits, fraction
    digits, and the exponent with its sign.  A literal beyond [10^310] is
    an infinity and one below [10^-330] is zero, whatever its digits. *)
Definition of_literal (negative : bool) (int frac : string)
           (exp_negative : bool) (exp : string) : t :=
  let d := digits_value (int +++ frac) 0%N in
  let len := N.of_nat (String.length (int +++ frac)) in
  let f := N.of_nat (String.length frac) in
  let x := digits_value exp 0%N in
  if (d =? 0)%N then Finite negative 0 0
  else if exp_negative then
    if (len + 330 <? x + f)%N then Finite negative 0 0
    else of_ratio negative d (10 ^ (x + f))%N
  else if (f <=? x)%N then
    if (310 <? x - f)%N then Infinite negative
    else of_ratio negative (d * 10 ^ (x - f))%N 1%N
  else
    if (len + 330 <? f - x)%N then Finite negative 0 0
    else of_ratio negative d (10 ^ (f - x))%N.

Definition truthy (d : t) : bool :=
  match d with
  | Finite _ m _ => negb (m =? 0)%N
  | Infinite _ => true
  end.

(** [Number::toString].  The value is [x / 2^1076] with
    [x = 4 * mantissa * 2^exponent]; the reals that round to it lie
    between [below / 2^1076] and [above / 2^1076], the ends included when
    the mantissa is even. *)

Definition scale : N := (2 ^ 1076)%N.

Definition above (m e : N) : N := ((4 * m + 2) * 2 ^ e)%N.

Definition below (m e : N) : N :=
  if ((m =? 2 ^ 52) && (0 <? e))%N then ((4 * m - 1) * 2 ^ e)%N
  else ((4 * m - 2) * 2 ^ e)%N.

(** [10^p] as a factor of the numerator or of the denominator. *)
Definition pow10_num (p : Z) : N := if (0 <=? p)%Z then (10 ^ Z.to_N p)%N else 1%N.

Definition pow10_den (p : Z) : N := if (0 <=? p)%Z then 1%N else (10 ^ Z.to_N (- p))%N.

(** Whether [x / scale < 10^n]. *)
Definition below_pow10 (x : N) (n : Z) : bool :=
  (x * pow10_den n <? scale * pow10_num n)%N.

(** The [n] with [10^(n-1) <= x / scale < 10^n], from an estimate. *)
Fixpoint adjust (fuel : nat) (x : N) (n : Z) : Z :=
  match fuel with
  | O => n
  | S fuel' =>
      if negb (below_pow10 x n) then adjust fuel' x (n + 1)%Z
      else if below_pow10 x (n - 1) then adjust fuel' x (n - 1)%Z
      else n
  end.

Definition magnitude (x : N) : Z :=
  let bits := (Z.of_N (N.log2 x) - 1076)%Z in
  adjust 8 x (bits * 1233 / 4096)%Z.

(** The [k]-digit decimal [s * 10^(n-k)] that rounds to the double and is
    nearest to it, if there is one: [s], and [n]. *)
Definition candidate (m e : N) (n : Z) (k : nat) : option (N * Z) :=
  let p := (Z.of_nat k - n)%Z in
  let num := pow10_num p in
  let den := (scale * pow10_den p)%N in
  let x := (4 * m * 2 ^ e * num)%N in
  let lo := (below m e * num)%N in
  let hi := (above m e * num)%N in
  let s1 := (x / den)%N in
  let s2 := (s1 + 1)%N in
  let closed := N.even m in
  let ok1 := if closed then (lo <=? s1 * den)%N else (lo <? s1 * den)%N in
  let ok2 := if closed then (s2 * den <=? hi)%N else (s2 * den <? hi)%N in
  let d1 := (x - s1 * den)%N in
  let d2 := (s2 * den - x)%N in
  let pick :=
    if ok1 && ok2 then
      match (d1 ?= d2)%N with
      | Lt => Some s1
      | Gt => Some s2
      | Eq => Some (if N.even s1 then s1 else s2)
      end
    else if ok1 then Some s1
    else if ok2 then Some s2
    else None in
  match pick with
  | Some s =>
      if (s =? 10 ^ N.of_nat k)%N then Some ((10 ^ (N.of_nat k - 1))%N, (n + 1)%Z)
      else Some (s, n)
  | None => None
  end.

(** The fewest digits that give the double back; seventeen always do. *)
Fixpoint shortest (fuel : nat) (m e : N) (n : Z) (k : nat) : N * Z * nat :=
  match fuel with
  | O => (0%N, n, k)
  | S fuel' =>
      match candidate m e n k with
      | Some (s, n') => (s, n', k)
      | None => shortest fuel' m e n (S k)
      end
  end.

Fixpoint zeros (n : nat) : string :=
  match n with
  | O => ""
  | S n' => "0" +++ zeros n'
  end.

Fixpoint take (n : nat) (s : string) : string :=
  match n, s with
  | S n', String c r => String c (take n' r)
  | _, _ => ""
  end.

(** The text of a positive number from its digits [s] (there are [k]) and
    the position [n] of its decimal point. *)
Definition format (s : string) (k : nat) (n : Z) : string :=
  let kz := Z.of_nat k in
  if ((kz <=? n) && (n <=? 21))%Z then s +++ zeros (Z.to_nat (n - kz))
  else if ((0 <? n) && (n <=? 21))%Z then
    take (Z.to_nat n) s +++ "." +++ slice (Z.to_nat n) s
  else if ((-6 <? n) && (n <=? 0))%Z then "0." +++ zeros (Z.to_nat (- n)) +++ s
  else
    let e := (n - 1)%Z in
    let exponent := (if (0 <? e)%Z then "+" else "-") +++ of_N (Z.to_N (Z.abs e)) in
    match k with
    | 1%nat => s +++ "e" +++ exponent
    | _ => take 1 s +++ "." +++ slice 1 s +++ "e" +++ exponent
    end.

Definition toString (d : t) : string :=
  match d with
  | Infinite negative => if negative then "-Infinity" else "Infinity"
  | Finite negative m e =>
      if (m =? 0)%N then "0"
      else
        let '(s, n, k) := shortest 17 m e (magnitude (4 * m * 2 ^ e)) 1 in
        (if negative then "-" else "") +++ format (of_N s) k n
  end.

End Double.

Definition DQUOTE : ascii := "034"%char.
Definition BACKSLASH : ascii := "092"%char.

Definition is_digit (c : ascii) : bool :=
  Nat.leb 48 (nat_of_ascii c) && Nat.leb (nat_of_ascii c) 57.

Definition is_json_ws (c : ascii) : bool :=
  Ascii.eqb c " " || Ascii.eqb c "009" || Ascii.eqb c "010" || Ascii.eqb c "013".

Fixpoint skip_ws (s : string) : string :=
  match s with
  | String c r => if is_json_ws c then skip_ws r else s
  | EmptyString => s
  end.

Fixpoint span_digits (s : string) : string * string :=
  match s with
  | String c r =>
      if is_digit c then let (d, r') := span_digits r in (String c d, r')
      else ("", s)
  | EmptyString => ("", "")
  end.

(** [s] after its first character, when that is [c]. *)
Definition eat (c : ascii) (s : string) : option string :=
  match s with
  | String x r => if Ascii.eqb x c then Some r else None
  | EmptyString => None
  end.

(** The number at the head of [s] and what follows it: an optional minus
    sign, an integer part without a leading zero, an optional fraction and
    an optional exponent. *)
Definition number_literal (s : string) : option (Double.t * string) :=
  let (negative, s1) :=
    match eat "-" s with
    | Some r => (true, r)
    | None => (false, s)
    end in
  let (int, s2) := span_digits s1 in
  if String.eqb int "" then None
  else if startsWith "0" int && negb (String.eqb int "0") then None
  else
    let frac :=
      match eat "." s2 with
      | Some r =>
          let (f, r') := span_digits r in
          if String.eqb f "" then None else Some (f, r')
      | None => Some ("", s2)
      end in
    match frac with
    | None => None
    | Some (f, s3) =>
        let exp :=
          match s3 with
          | String e r =>
              if Ascii.eqb e "e" || Ascii.eqb e "E" then
                let (exp_negative, r1) :=
                  match eat "+" r, eat "-" r with
                  | Some r', _ => (false, r')
                  | None, Some r' => (true, r')
                  | None, None => (false, r)
                  end in
                let (d, r2) := span_digits r1 in
                if String.eqb d "" then None
                else Some (exp_negative, d, r2)
              else Some (false, "", s3)
          | EmptyString => Some (false, "", s3)
          end in
        match exp with
        | None => None
        | Some (exp_negative, x, s4) =>
            Some (Double.of_literal negative int f exp_negative x, s4)
        end
    end.

Definition hex_digit (c : ascii) : option N :=
  let n := N_of_ascii c in
  if ((48 <=? n) && (n <=? 57))%N then Some (n - 48)%N
  else if ((65 <=? n) && (n <=? 70))%N then Some (n - 55)%N
  else if ((97 <=? n) && (n <=? 102))%N then Some (n - 87)%N
  else None.

Definition hex4 (a b c d : ascii) : option N :=
  match hex_digit a, hex_digit b, hex_digit c, hex_digit d with
  | Some x, Some y, Some z, Some w => Some (((x * 16 + y) * 16 + z) * 16 + w)%N
  | _, _, _, _ => None
  end.

Definition byte_char (n : N) : string := String (ascii_of_N n) "".

(** The UTF-8 encoding of a code point. *)
Definition utf8 (cp : N) : string :=
  if (cp <? 128)%N then byte_char cp
  else if (cp <? 2048)%N then
    byte_char (192 + cp / 64) +++ byte_char (128 + cp mod 64)
  else if (cp <? 65536)%N then
    byte_char (224 + cp / 4096) +++ byte_char (128 + (cp / 64) mod 64)
    +++ byte_char (128 + cp mod 64)
  else
    byte_char (240 + cp / 262144) +++ byte_char (128 + (cp / 4096) mod 64)
    +++ byte_char (128 + (cp / 64) mod 64) +++ byte_char (128 + cp mod 64).

Definition is_high_surrogate (u : N) : bool := ((55296 <=? u) && (u <=? 56319))%N.
Definition is_low_surrogate (u : N) : bool := ((56320 <=? u) && (u <=? 57343))%N.

Definition prepend (s : string) (r : option (string * string)) : option (string * string) :=
  match r with
  | Some (body, rest) => Some (s +++ body, rest)
  | None => None
  end.

(** The characters of a string literal after its opening quote, and what
    follows the closing quote.  A surrogate that has no partner is not text
    and is written as U+FFFD. *)
Fixpoint string_body (s : string) : option (string * string) :=
  match s with
  | EmptyString => None
  | String c r =>
      if Ascii.eqb c DQUOTE then Some ("", r)
      else if Ascii.eqb c BACKSLASH then
        match r with
        | String e r1 =>
            if Ascii.eqb e DQUOTE || Ascii.eqb e BACKSLASH || Ascii.eqb e "/" then
              prepend (String e "") (string_body r1)
            else if Ascii.eqb e "b" then prepend (byte_char 8) (string_body r1)
            else if Ascii.eqb e "f" then prepend (byte_char 12) (string_body r1)
            else if Ascii.eqb e "n" then prepend (byte_char 10) (string_body r1)
            else if Ascii.eqb e "r" then prepend (byte_char 13) (string_body r1)
            else if Ascii.eqb e "t" then prepend (byte_char 9) (string_body r1)
            else if Ascii.eqb e "u" then
              match r1 with
              | String h1 (String h2 (String h3 (String h4 r2))) =>
                  match hex4 h1 h2 h3 h4 with
                  | None => None
                  | Some hi =>
                      let single :=
                        prepend (utf8 (if is_high_surrogate hi || is_low_surrogate hi
                                       then 65533%N else hi))
                                (string_body r2) in
                      if is_high_surrogate hi then
                        match r2 with
                        | String b1 (String b2
                            (String l1 (String l2 (String l3 (String l4 r3))))) =>
                            if Ascii.eqb b1 BACKSLASH && Ascii.eqb b2 "u" then
                              match hex4 l1 l2 l3 l4 with
                              | Some lo =>
                                  if is_low_surrogate lo then
                                    prepend
                                      (utf8 (65536 + (hi - 55296) * 1024 + (lo - 56320))%N)
                                      (string_body r3)
                                  else single
                              | None => single
                              end
                            else single
                        | _ => single
                        end
                      else single
                  end
              | _ => None
              end
            else None
        | EmptyString => None
        end
      else if Nat.ltb (nat_of_ascii c) 32 then None
      else prepend (String c "") (string_body r)
  end.

Definition Json : Type := JValue Double.t.

(** [obj[k] = v] while parsing: a repeated key keeps its place and takes
    the later value. *)
Fixpoint set_prop (k : string) (v : Json) (props : list (string * Json))
  : list (string * Json) :=
  match props with
  | [] => [(k, v)]
  | (k', v') :: rest =>
      if String.eqb k k' then (k, v) :: rest else (k', v') :: set_prop k v rest
  end.

Definition literal (word : string) (v : Json) (s : string) : option (Json * string) :=
  if startsWith word s then Some (v, slice (String.length word) s) else None.

Fixpoint parse_value (fuel : nat) (s : string) : option (Json * string) :=
  match fuel with
  | O => None
  | S fuel' =>
      match skip_ws s with
      | EmptyString => None
      | String c r =>
          if Ascii.eqb c "n" then literal "null" JNull (String c r)
          else if Ascii.eqb c "t" then literal "true" (JBool true) (String c r)
          else if Ascii.eqb c "f" then literal "false" (JBool false) (String c r)
          else if Ascii.eqb c DQUOTE then
            match string_body r with
            | Some (str, rest) => Some (JString str, rest)
            | None => None
            end
          else if Ascii.eqb c "[" then
            match eat "]" (skip_ws r) with
            | Some rest => Some (JArray [], rest)
            | None =>
                match parse_elements fuel' r with
                | Some (items, rest) => Some (JArray items, rest)
                | None => None
                end
            end
          else if Ascii.eqb c "{" then
            match eat "}" (skip_ws r) with
            | Some rest => Some (JObject [], rest)
            | None =>
                match parse_members fuel' r [] with
                | Some (props, rest) => Some (JObject props, rest)
                | None => None
                end
            end
          else
            match number_literal (String c r) with
            | Some (n, rest) => Some (JNumber n, rest)
            | None => None
            end
      end
  end

with parse_elements (fuel : nat) (s : string) : option (list Json * string) :=
  match fuel with
  | O => None
  | S fuel' =>
      match parse_value fuel' s with
      | None => None
      | Some (v, r) =>
          match eat "," (skip_ws r), eat "]" (skip_ws r) with
          | Some r', _ =>
              match parse_elements fuel' r' with
              | Some (items, rest) => Some (v :: items, rest)
              | None => None
              end
          | None, Some rest => Some ([v], rest)
          | None, None => None
          end
      end
  end

with parse_members (fuel : nat) (s : string) (acc : list (string * Json))
  : option (list (string * Json) * string) :=
  match fuel with
  | O => None
  | S fuel' =>
      match eat DQUOTE (skip_ws s) with
      | None => None
      | Some r =>
          match string_body r with
          | None => None
          | Some (key, r1) =>
              match eat ":" (skip_ws r1) with
              | None => None
              | Some r2 =>
                  match parse_value fuel' r2 with
                  | None => None
                  | Some (v, r3) =>
                      match eat "," (skip_ws r3), eat "}" (skip_ws r3) with
                      | Some r4, _ => parse_members fuel' r4 (set_prop key v acc)
                      | None, Some rest => Some (set_prop key v acc, rest)
                      | None, None => None
                      end
                  end
              end
          end
      end
  end.

(** [JSON.parse(text)]: one value, with nothing but white space around. *)
Definition parse (text : string) : option Json :=
  match parse_value (2 * String.length text + 2) text with
  | Some (v, rest) => if String.eqb (skip_ws rest) "" then Some v else None
  | None => None
  end.

Module Utf8.

(** The decoder between two bytes: whether the start of the stream is
    behind it, the bytes of the sequence it is in, how many are still to
    come, and the bounds of the next one. *)
Record t : Type := {
  bom_seen : bool;
  held : string;
  needed : nat;
  lower : N;
  upper : N
  }.

Definition idle (seen : bool) : t :=
  {| bom_seen := seen; held := ""; needed := 0; lower := 128; upper := 191 |}.

(** U+FFFD, which stands for a malformed sequence, and U+FEFF. *)
Definition REPLACEMENT : string := utf8 65533.

Definition BOM : string := utf8 65279.

(** A byte met outside a sequence: the state after it, and the characters
    it completes. *)
Definition start (seen : bool) (b : N) : t * list string :=
  if (b <=? 127)%N then (idle seen, [byte_char b])
  else if ((194 <=? b) && (b <=? 223))%N then
    ({| bom_seen := seen; held := byte_char b; needed := 1;
        lower := 128; upper := 191 |}, [])
  else if ((224 <=? b) && (b <=? 239))%N then
    ({| bom_seen := seen; held := byte_char b; needed := 2;
        lower := if (b =? 224)%N then 160 else 128;
        upper := if (b =? 237)%N then 159 else 191 |}, [])
  else if ((240 <=? b) && (b <=? 244))%N then
    ({| bom_seen := seen; held := byte_char b; needed := 3;
        lower := if (b =? 240)%N then 144 else 128;
        upper := if (b =? 244)%N then 143 else 191 |}, [])
  else (idle seen, [REPLACEMENT]).

(** One byte: a byte that cannot go on with the sequence ends it in error
    and is looked at again. *)
Definition step (dec : t) (b : N) : t * list string :=
  match needed dec with
  | O => start (bom_seen dec) b
  | S n =>
      if ((lower dec <=? b) && (b <=? upper dec))%N then
        match n with
        | O => (idle (bom_seen dec), [held dec +++ byte_char b])
        | S _ =>
            ({| bom_seen := bom_seen dec; held := held dec +++ byte_char b;
                needed := n; lower := 128; upper := 191 |}, [])
        end
      else
        let (dec', out) := start (bom_seen dec) b in
        (dec', REPLACEMENT :: out)
  end.

(** The characters that go out: a byte-order mark that comes first is
    dropped. *)
Fixpoint emit (seen : bool) (chars : list string) : bool * string :=
  match chars with
  | [] => (seen, "")
  | c :: rest =>
      let (seen', text) := emit true rest in
      (seen', if negb seen && String.eqb c BOM then text else c +++ text)
  end.

Definition decode_byte (dec : t) (b : Byte.byte) : t * string :=
  let (dec', chars) := step dec (Byte.to_N b) in
  let (seen, text) := emit (bom_seen dec') chars in
  ({| bom_seen := seen; held := held dec'; needed := needed dec';
      lower := lower dec'; upper := upper dec' |}, text).

End Utf8.

#[export] Instance runtime : Runtime := {|
  number := Double.t;
  number_truthy := Double.truthy;
  number_toString := Double.toString;
  JSON_parse := parse;
  TextDecoder := Utf8.t;
  new_TextDecoder := Utf8.idle false;
  decode_byte := Utf8.decode_byte
  |}.

(** Streams are written with ['] for the double quote and [|] for the
    line feed. *)
Fixpoint wire (s : string) : string :=
  match s with
  | EmptyString => EmptyString
  | String c r =>
      String (if Ascii.eqb c "'" then DQUOTE
              else if Ascii.eqb c "|" then LF else c) (wire r)
  end.

Definition bytes (s : string) : list Byte.byte := list_byte_of_string (wire s).

(** A response that is [ok] and delivers [parts] at once, then ends. *)
Definition stream (parts : list string) : Timed FetchResult :=
  after 0 (Resolved {| ok := true; status := 200; statusText := "OK";
                       json := None;
                       body := Some {| chunks := map (fun p => after 0%N (bytes p)) parts;
                                       ending := after 0 EndOfStream |} |}).

End Reference.

(** * Properties *)

(** ** Lines *)

Module Lines.

Lemma append_assoc (a b c : string) : (a +++ b) +++ c = a +++ (b +++ c).
Proof. induction a as [|x a IH]; simpl; [reflexivity | now rewrite IH]. Qed.

Lemma append_empty_r (a : string) : a +++ "" = a.
Proof. induction a as [|x a IH]; simpl; [reflexivity | now rewrite IH]. Qed.

(** The complete lines of a text and the unterminated rest, by one pass
    from the right. *)
Fixpoint lines_rest (s : string) : list string * string :=
  match s with
  | EmptyString => ([], "")
  | String c s' =>
      let (ls, r) := lines_rest s' in
      if Ascii.eqb c LF then ("" :: ls, r)
      else
        match ls with
        | [] => ([], String c r)
        | l :: ls' => (String c l :: ls', r)
        end
  end.

Lemma split_LF_not_nil (s : string) : split_LF s <> [].
Proof.
  induction s as [|c s IH]; simpl; [discriminate|].
  destruct (Ascii.eqb c LF); [discriminate|].
  destruct (split_LF s); [contradiction | discriminate].
Qed.

(** What the loop does with [buffer.split('\n')] and [lines.pop()] is this
    pass. *)
Lemma pop_split_LF (s : string) :
  (removelast (split_LF s), last (split_LF s) "") = lines_rest s.
Proof.
  induction s as [|c s IH]; [reflexivity|].
  cbn [split_LF lines_rest].
  pose proof (split_LF_not_nil s) as Hne.
  destruct (split_LF s) as [|x xs]; [contradiction|].
  rewrite <- IH.
  destruct (Ascii.eqb c LF); [reflexivity|].
  destruct xs as [|y ys]; reflexivity.
Qed.

Lemma lines_rest_app (a b : string) :
  lines_rest (a +++ b) =
  (fst (lines_rest a) ++ fst (lines_rest (snd (lines_rest a) +++ b)),
   snd (lines_rest (snd (lines_rest a) +++ b))).
Proof.
  induction a as [|c a IH].
  - simpl. now destruct (lines_rest b).
  - cbn [append lines_rest]. rewrite IH.
    destruct (lines_rest a) as [la ra]. cbn [fst snd].
    destruct (Ascii.eqb c LF) eqn:Hc.
    + reflexivity.
    + destruct la as [|l la'].
      * cbn [fst snd app append lines_rest]. rewrite Hc.
        destruct (lines_rest (ra +++ b)) as [lb rb].
        now destruct lb.
      * reflexivity.
Qed.

(** The rest holds no complete line. *)
Lemma lines_rest_rest (s : string) :
  lines_rest (snd (lines_rest s)) = ([], snd (lines_rest s)).
Proof.
  induction s as [|c s IH]; [reflexivity|].
  cbn [lines_rest]. destruct (lines_rest s) as [ls r]. cbn [snd] in IH.
  destruct (Ascii.eqb c LF) eqn:Hc; [exact IH|].
  destruct ls as [|l ls']; cbn [snd]; [|exact IH].
  cbn [lines_rest]. rewrite IH, Hc. reflexivity.
Qed.

End Lines.

Import Lines.

(** ** The decode loop *)

Section Decoding.

Context {RT : Runtime}.

Lemma and_then_assoc {A B C : Type} (m : Step A) (f : A -> Step B) (g : B -> Step C) :
  and_then (and_then m f) g = and_then m (fun a => and_then (f a) g).
Proof.
  destruct m as [tr [a|]]; cbn; [|reflexivity].
  destruct (f a) as [tr1 [b|]]; cbn; [|reflexivity].
  destruct (g b) as [tr2 r]. now rewrite app_assoc.
Qed.

(** Two continuations that agree on the value [m] hands on. *)
Lemma and_then_ext {A B : Type} (m : Step A) (f g : A -> Step B) :
  (forall tr a, m = (tr, Continue a) -> f a = g a) ->
  and_then m f = and_then m g.
Proof.
  intros H. destruct m as [tr [a|]]; cbn; [|reflexivity].
  now rewrite (H tr a eq_refl).
Qed.

Lemma for_lines_app (d : Dispatch) (l1 l2 : list string) :
  for_lines d (l1 ++ l2) = and_then (for_lines d l1) (fun d' => for_lines d' l2).
Proof.
  revert d. induction l1 as [|l l1 IH]; intros d.
  - cbn. now destruct (for_lines d l2).
  - cbn [app for_lines]. rewrite and_then_assoc.
    apply and_then_ext. intros _ d' _. apply IH.
Qed.

Lemma decode_app (dec : TextDecoder) (a b : list Byte.byte) :
  decode dec (a ++ b) =
  (fst (decode (fst (decode dec a)) b),
   snd (decode dec a) +++ snd (decode (fst (decode dec a)) b)).
Proof.
  revert dec. induction a as [|x a IH]; intros dec.
  - cbn. now destruct (decode dec b).
  - cbn [app decode]. destruct (decode_byte dec x) as [d1 s1].
    rewrite IH. destruct (decode d1 a) as [d2 s2]. cbn [fst snd].
    destruct (decode d2 b) as [d3 s3]. cbn [fst snd].
    now rewrite append_assoc.
Qed.

(** [handle_chunk] in terms of the one-pass split. *)
Lemma handle_chunk_eq (st : Locals) (value : list Byte.byte) :
  handle_chunk st value =
  and_then
    (for_lines (dispatch st)
               (fst (lines_rest (buffer st +++ snd (decode (decoder st) value)))))
    (fun d => ([], Continue
       {| decoder := fst (decode (decoder st) value);
          buffer := snd (lines_rest (buffer st +++ snd (decode (decoder st) value)));
          dispatch := d |})).
Proof.
  unfold handle_chunk, pop. destruct (decode (decoder st) value) as [dec text].
  cbn [fst snd]. rewrite <- (pop_split_LF (buffer st +++ text)). reflexivity.
Qed.

(** Reading [a] and then [b] is reading [a ++ b]. *)
Lemma handle_chunk_app (st : Locals) (a b : list Byte.byte) :
  handle_chunk st (a ++ b) =
  and_then (handle_chunk st a) (fun st' => handle_chunk st' b).
Proof.
  rewrite (handle_chunk_eq st a), and_then_assoc.
  rewrite (handle_chunk_eq st (a ++ b)), decode_app. cbn [fst snd].
  rewrite <- append_assoc, lines_rest_app. cbn [fst snd].
  rewrite for_lines_app, and_then_assoc.
  apply and_then_ext. intros _ d _.
  cbn [and_then app]. rewrite handle_chunk_eq. cbn [decoder buffer dispatch].
  destruct (and_then _ _) as [tr r]. reflexivity.
Qed.

(** The buffer holds an unterminated line only. *)
Definition buffer_ok (st : Locals) : Prop :=
  lines_rest (buffer st) = ([], buffer st).

Lemma initial_buffer_ok : buffer_ok initial.
Proof. reflexivity. Qed.

Lemma handle_chunk_buffer_ok (st st' : Locals) (value : list Byte.byte) (tr : list Effect) :
  handle_chunk st value = (tr, Continue st') -> buffer_ok st'.
Proof.
  rewrite handle_chunk_eq. intros H.
  destruct (for_lines _ _) as [tr1 [d|]]; cbn in H; [|discriminate].
  injection H as _ <-. unfold buffer_ok. cbn [buffer]. apply lines_rest_rest.
Qed.

Lemma handle_chunk_nil (st : Locals) :
  buffer_ok st -> handle_chunk st [] = ([], Continue st).
Proof.
  intros Hok. rewrite handle_chunk_eq. cbn [decode fst snd].
  rewrite append_empty_r, Hok. cbn. now destruct st.
Qed.

(** The loop over the chunks of a stream is one pass over the stream. *)
Lemma read_chunks_concat (values : list (list Byte.byte)) (st : Locals) :
  buffer_ok st -> read_chunks st values = handle_chunk st (concat values).
Proof.
  revert st. induction values as [|v values IH]; intros st Hok.
  - cbn. symmetry. now apply handle_chunk_nil.
  - cbn [read_chunks concat]. rewrite handle_chunk_app.
    apply and_then_ext. intros tr st' Hst'.
    apply IH. eapply handle_chunk_buffer_ok. exact Hst'.
Qed.

(** C4. However a byte stream is cut into chunks, the session decodes the
    same events from it: the effects of the read loop, its callbacks with
    their payloads among them, whether it returned early, and the locals it
    is left with depend on the concatenation of the chunks only. *)
Theorem chunk_boundaries_carry_no_meaning (chunks1 chunks2 : list (list Byte.byte)) :
  concat chunks1 = concat chunks2 ->
  read_chunks initial chunks1 = read_chunks initial chunks2.
Proof.
  intros Hsame.
  rewrite !read_chunks_concat by apply initial_buffer_ok.
  now rewrite Hsame.
Qed.

End Decoding.

(** ** Frames *)

Section Frames.

Context {RT : Runtime}.

(** A data line hands its payload to [handle_data]. *)
Lemma handle_line_data (d : Dispatch) (payload : string) :
  handle_line d ("data: " +++ payload) = handle_data d payload.
Proof. reflexivity. Qed.

Lemma handle_line_event (d : Dispatch) (name : string) :
  handle_line d ("event: " +++ name) =
  ([], Continue {| currentEvent := trim name;
                   hasReceivedContent := hasReceivedContent d |}).
Proof. reflexivity. Qed.

Lemma handle_line_blank (d : Dispatch) :
  handle_line d "" =
  ([], Continue {| currentEvent := ""; hasReceivedContent := hasReceivedContent d |}).
Proof. reflexivity. Qed.

Lemma handle_data_malformed (d : Dispatch) (payload : string) :
  JSON_parse payload = None -> handle_data d payload = ([], Continue d).
Proof. intros H. unfold handle_data. now rewrite H. Qed.

(** C5. A data line whose payload is not JSON does nothing: no callback,
    no change of the pending event name or of the content flag, no return.
    The lines after it are handled as if it had not been there, so the
    frames that follow produce their events and the stream is not ended by
    it. *)
Theorem malformed_data_line_is_skipped (payload : string) :
  JSON_parse payload = None ->
  (forall d, handle_line d ("data: " +++ payload) = ([], Continue d)) /\
  (forall d before after,
      for_lines d (before ++ ("data: " +++ payload) :: after) =
      for_lines d (before ++ after)).
Proof.
  intros Hbad.
  assert (Hline : forall d, handle_line d ("data: " +++ payload) = ([], Continue d)).
  { intros d. rewrite handle_line_data. now apply handle_data_malformed. }
  split; [exact Hline|].
  intros d before after. rewrite !for_lines_app.
  apply and_then_ext. intros _ d' _.
  cbn [for_lines]. rewrite Hline. cbn [and_then app].
  now destruct (for_lines d' after).
Qed.

Lemma handle_data_done (d : Dispatch) (payload : string) (data : Json) :
  currentEvent d = "done" -> JSON_parse payload = Some data ->
  handle_data d payload = ([ClearTimeout; Call OnComplete], Return).
Proof. intros Hev Hp. unfold handle_data. rewrite Hp, Hev. reflexivity. Qed.

(** An early [return] ends the read loop: later chunks are not read. *)
Lemma read_chunks_return (st : Locals) (value : list Byte.byte)
      (more : list (list Byte.byte)) (tr : list Effect) :
  handle_chunk st value = (tr, Return) ->
  read_chunks st (value :: more) = (tr, Return).
Proof. intros H. cbn [read_chunks]. now rewrite H. Qed.

(** C6. When a data line is decoded (its payload is JSON, whatever value)
    while the pending event name is [done], the timeout is cleared,
    [onComplete] is called, and the function returns: neither the lines
    that follow in the same chunk nor any later chunk is looked at. *)
Theorem done_frame_completes_the_session
        (st : Locals) (value : list Byte.byte) (more : list (list Byte.byte))
        (before rest : list string) (left : string)
        (tr : list Effect) (d : Dispatch) (payload : string) (data : Json) :
  lines_rest (buffer st +++ snd (decode (decoder st) value)) =
    (before ++ ("data: " +++ payload) :: rest, left) ->
  for_lines (dispatch st) before = (tr, Continue d) ->
  currentEvent d = "done" ->
  JSON_parse payload = Some data ->
  read_chunks st (value :: more) = (tr ++ [ClearTimeout; Call OnComplete], Return).
Proof.
  intros Hlines Hbefore Hev Hparse.
  apply read_chunks_return.
  rewrite handle_chunk_eq, Hlines. cbn [fst snd].
  rewrite for_lines_app, Hbefore. cbn [and_then for_lines].
  rewrite handle_line_data, (handle_data_done d payload data Hev Hparse).
  reflexivity.
Qed.

Lemma handle_data_keeps_event (d d' : Dispatch) (payload : string) (tr : list Effect) :
  handle_data d payload = (tr, Continue d') -> currentEvent d' = currentEvent d.
Proof.
  unfold handle_data.
  repeat match goal with
         | |- context [match ?x with _ => _ end] => destruct x
         end;
    intros H; inversion H; reflexivity.
Qed.

Lemma handle_data_no_event (d : Dispatch) (payload : string) :
  currentEvent d = "" -> handle_data d payload = ([], Continue d).
Proof.
  intros Hev. unfold handle_data. rewrite Hev. cbn.
  now destruct (JSON_parse payload).
Qed.

Lemma handle_data_content (d : Dispatch) (payload : string) (data chunk : Json) :
  currentEvent d = "content" ->
  JSON_parse payload = Some data ->
  member data "text" = Some (Some chunk) ->
  truthy (Some chunk) = true ->
  handle_data d payload =
  ([Call (OnContent chunk)],
   Continue {| currentEvent := "content"; hasReceivedContent := true |}).
Proof.
  intros Hev Hp Hm Ht. unfold handle_data. rewrite Hp, Hev. cbn [String.eqb Ascii.eqb].
  cbn. rewrite Hm, Ht. reflexivity.
Qed.

(** C10. The pending event name outlives a data line: a data line that
    does not end the session leaves it as it was, so one [event: content]
    line followed by two data lines calls [onContent] twice.  The name is
    empty at the start and after a blank line, and a data line met while
    it is empty calls nothing, whatever its payload. *)
Theorem event_name_persists_across_data_lines :
  (forall d payload tr d',
      handle_line d ("data: " +++ payload) = (tr, Continue d') ->
      currentEvent d' = currentEvent d) /\
  (forall d p1 p2 data1 data2 chunk1 chunk2,
      JSON_parse p1 = Some data1 -> member data1 "text" = Some (Some chunk1) ->
      truthy (Some chunk1) = true ->
      JSON_parse p2 = Some data2 -> member data2 "text" = Some (Some chunk2) ->
      truthy (Some chunk2) = true ->
      for_lines d ["event: content"; "data: " +++ p1; "data: " +++ p2] =
      ([Call (OnContent chunk1); Call (OnContent chunk2)],
       Continue {| currentEvent := "content"; hasReceivedContent := true |})) /\
  currentEvent (dispatch initial) = "" /\
  (forall d, exists d', handle_line d "" = ([], Continue d') /\ currentEvent d' = "") /\
  (forall d payload,
      currentEvent d = "" ->
      handle_line d ("data: " +++ payload) = ([], Continue d)).
Proof.
  repeat split.
  - intros d payload tr d'. rewrite handle_line_data. apply handle_data_keeps_event.
  - intros d p1 p2 data1 data2 chunk1 chunk2 Hp1 Hm1 Ht1 Hp2 Hm2 Ht2.
    cbn [for_lines].
    change "event: content" with ("event: " +++ "content").
    rewrite handle_line_event. cbn [and_then].
    rewrite !handle_line_data.
    assert (Htrim : trim "content" = "content") by reflexivity.
    rewrite Htrim.
    rewrite handle_data_content with (data := data1) (chunk := chunk1);
      [|reflexivity|assumption..].
    cbn [and_then]. rewrite handle_line_data.
    rewrite handle_data_content with (data := data2) (chunk := chunk2);
      [|reflexivity|assumption..].
    reflexivity.
  - intros d. eexists. split; [apply handle_line_blank | reflexivity].
  - intros d payload Hev. rewrite handle_line_data. now apply handle_data_no_event.
Qed.

End Frames.

(** ** Traces *)

Section Traces.

Context {RT : Runtime}.

(** Effects of the decode loop itself. *)
Definition is_local (e : Effect) : bool :=
  match e with
  | ClearTimeout | Call _ => true
  | _ => false
  end.

Definition is_TimerFires (e : Effect) : bool :=
  match e with TimerFires _ => true | _ => false end.

Definition is_SetTimeout (e : Effect) : bool :=
  match e with SetTimeout _ => true | _ => false end.

(** A delta or a list of sources handed to the page. *)
Definition is_delivery (e : Effect) : bool :=
  match e with
  | Call c => negb (is_terminal c)
  | _ => false
  end.

(** Terminal callbacks of a trace. *)
Definition terminals (tr : list Effect) : nat :=
  count is_OnComplete tr + count is_OnError tr.

Definition has_content (tr : list Effect) : bool :=
  existsb is_OnContent (calls tr).

Lemma calls_app (a b : list Effect) : calls (a ++ b) = calls a ++ calls b.
Proof.
  induction a as [|e a IH]; [reflexivity|].
  destruct e; cbn; now rewrite ?IH.
Qed.

Lemma count_app (p : Callback -> bool) (a b : list Effect) :
  count p (a ++ b) = count p a + count p b.
Proof. unfold count. now rewrite calls_app, filter_app, length_app. Qed.

Lemma terminals_app (a b : list Effect) : terminals (a ++ b) = terminals a + terminals b.
Proof. unfold terminals. rewrite !count_app. lia. Qed.

Lemma has_content_app (a b : list Effect) :
  has_content (a ++ b) = has_content a || has_content b.
Proof. unfold has_content. now rewrite calls_app, existsb_app. Qed.

Lemma has_content_count (tr : list Effect) :
  has_content tr = Nat.ltb 0 (count is_OnContent tr).
Proof.
  unfold has_content, count.
  induction (calls tr) as [|c cs IH]; [reflexivity|].
  cbn. destruct (is_OnContent c); [reflexivity | exact IH].
Qed.

(** What one step of the loop may do, given the content flag before it:
    only local effects; no terminal callback if it goes on, one if it
    returns; the flag is raised exactly by a content delta; the timeout is
    cleared before every return. *)
Definition summary (received : bool) (tr : list Effect) (fl : Flow bool) : Prop :=
  forallb is_local tr = true /\
  match fl with
  | Continue received' =>
      terminals tr = 0 /\ received' = received || has_content tr
  | Return => terminals tr = 1 /\ existsb is_ClearTimeout tr = true
  end.

Definition flow_map {A B : Type} (f : A -> B) (fl : Flow A) : Flow B :=
  match fl with
  | Continue a => Continue (f a)
  | Return => Return
  end.

Lemma summary_nil (received : bool) : summary received [] (Continue received).
Proof. repeat split. now rewrite orb_false_r. Qed.

Lemma summary_seq (r r1 : bool) (tr1 tr2 : list Effect) (fl : Flow bool) :
  summary r tr1 (Continue r1) -> summary r1 tr2 fl -> summary r (tr1 ++ tr2) fl.
Proof.
  intros [L1 [T1 R1]] [L2 H2]. split.
  - now rewrite forallb_app, L1, L2.
  - destruct fl as [r2|].
    + destruct H2 as [T2 R2]. split.
      * rewrite terminals_app. lia.
      * rewrite has_content_app, R2, R1. now rewrite orb_assoc.
    + destruct H2 as [T2 C2]. split.
      * rewrite terminals_app. lia.
      * rewrite existsb_app, C2. apply orb_true_r.
Qed.

Lemma handle_data_summary (d : Dispatch) (payload : string) :
  summary (hasReceivedContent d) (fst (handle_data d payload))
          (flow_map hasReceivedContent (snd (handle_data d payload))).
Proof.
  unfold handle_data.
  repeat match goal with
         | |- context [match ?x with _ => _ end] => destruct x
         end;
    cbn; repeat split; now rewrite ?orb_false_r, ?orb_true_r.
Qed.

Lemma handle_line_summary (d : Dispatch) (line : string) :
  summary (hasReceivedContent d) (fst (handle_line d line))
          (flow_map hasReceivedContent (snd (handle_line d line))).
Proof.
  unfold handle_line.
  destruct (startsWith "event: " line); [apply summary_nil|].
  destruct (startsWith "data: " line); [apply handle_data_summary|].
  destruct (String.eqb line ""); apply summary_nil.
Qed.

Lemma for_lines_summary (lines : list string) (d : Dispatch) :
  summary (hasReceivedContent d) (fst (for_lines d lines))
          (flow_map hasReceivedContent (snd (for_lines d lines))).
Proof.
  revert d. induction lines as [|l lines IH]; intros d; [apply summary_nil|].
  cbn [for_lines]. pose proof (handle_line_summary d l) as H1.
  destruct (handle_line d l) as [tr1 [d1|]]; cbn [and_then fst snd flow_map] in *.
  - specialize (IH d1). destruct (for_lines d1 lines) as [tr2 fl].
    cbn [fst snd] in *. eapply summary_seq; eassumption.
  - exact H1.
Qed.

Lemma handle_chunk_summary (st : Locals) (value : list Byte.byte) :
  summary (hasReceivedContent (dispatch st)) (fst (handle_chunk st value))
          (flow_map (fun st' => hasReceivedContent (dispatch st'))
                    (snd (handle_chunk st value))).
Proof.
  rewrite handle_chunk_eq.
  pose proof (for_lines_summary
                (fst (lines_rest (buffer st +++ snd (decode (decoder st) value))))
                (dispatch st)) as H.
  destruct (for_lines _ _) as [tr [d|]]; cbn [and_then fst snd flow_map dispatch] in *;
    [now rewrite app_nil_r | exact H].
Qed.

Lemma read_chunks_summary (values : list (list Byte.byte)) (st : Locals) :
  summary (hasReceivedContent (dispatch st)) (fst (read_chunks st values))
          (flow_map (fun st' => hasReceivedContent (dispatch st'))
                    (snd (read_chunks st values))).
Proof.
  revert st. induction values as [|v values IH]; intros st; [apply summary_nil|].
  cbn [read_chunks]. pose proof (handle_chunk_summary st v) as H1.
  destruct (handle_chunk st v) as [tr1 [st1|]]; cbn [and_then fst snd flow_map] in *.
  - specialize (IH st1). destruct (read_chunks st1 values) as [tr2 fl].
    cbn [fst snd] in *. eapply summary_seq; eassumption.
  - exact H1.
Qed.

End Traces.

(** ** The session *)

Section SessionFacts.

Context {RT : Runtime}.

Definition timeoutError : JSError := new_Error "Request timed out. Please try again.".

Definition closedError : JSError :=
  new_Error "Connection closed without receiving response".

(** Time the reads of a body take when none is cut short. *)
Definition total_latency (pending : list (Timed (list Byte.byte)))
           (ending : Timed StreamEnd) : N :=
  fold_right (fun read acc => (latency read + acc)%N) (latency ending) pending.

Lemma await_on_time {A : Type} (tm : Timer) (now : N) (op : Timed A) :
  (now + latency op <= deadline tm)%N ->
  await tm now op = Some ((now + latency op)%N, outcome op).
Proof.
  intros H. unfold await.
  replace (deadline tm <? now + latency op)%N with false
    by (symmetry; apply N.ltb_ge; exact H).
  now rewrite andb_false_r.
Qed.

Lemma await_late {A : Type} (tm : Timer) (now : N) (op : Timed A) :
  armed tm = true -> (deadline tm < now + latency op)%N ->
  await tm now op = None.
Proof.
  intros Ha H. unfold await. rewrite Ha.
  replace (deadline tm <? now + latency op)%N with true
    by (symmetry; apply N.ltb_lt; exact H).
  reflexivity.
Qed.

Lemma await_None_armed {A : Type} (tm : Timer) (now : N) (op : Timed A) :
  await tm now op = None -> armed tm = true.
Proof.
  unfold await. destruct (armed tm); [reflexivity|]. cbn. discriminate.
Qed.

Lemma deliveries_of_armed (tr : list Effect) :
  forallb is_local tr = true -> terminals tr = 0 ->
  existsb is_ClearTimeout tr = false ->
  forallb is_delivery tr = true.
Proof.
  induction tr as [|e tr IH]; [reflexivity|].
  intros Hl Ht Hc. cbn [forallb existsb] in *.
  apply andb_prop in Hl as [He Hl]. apply orb_false_iff in Hc as [Hec Hc].
  change (e :: tr) with ([e] ++ tr) in Ht. rewrite terminals_app in Ht.
  rewrite IH by (assumption || lia). rewrite andb_true_r.
  destruct e as [| | |c|]; try discriminate.
  destruct c; try reflexivity; cbn in Ht; discriminate.
Qed.

(** How the read loop can end. *)
Definition loop_post (tm : Timer) (st : Locals) (tr : list Effect) (ex : Exit) : Prop :=
  match ex with
  | Broke st' =>
      summary (hasReceivedContent (dispatch st)) tr
              (Continue (hasReceivedContent (dispatch st')))
  | Returned => summary (hasReceivedContent (dispatch st)) tr Return
  | Threw error =>
      terminals tr = 0 /\
      (forallb is_local tr = true \/
       (error = ThrowError AbortError /\ armed tm = true /\
        exists pre, tr = pre ++ [TimerFires (deadline tm)] /\
                    forallb is_delivery pre = true))
  | Hangs =>
      forallb is_local tr = true /\ terminals tr = 0 /\
      (armed tm = false \/ existsb is_ClearTimeout tr = true)
  end.

Lemma loop_post_fired (tm : Timer) (st : Locals) :
  armed tm = true ->
  loop_post tm st (fst (fires tm)) (snd (fires tm)).
Proof.
  intros Ha. split; [reflexivity|]. right. repeat split; [exact Ha|].
  now exists [].
Qed.

Lemma read_loop_spec (pending : list (Timed (list Byte.byte))) (ending : Timed StreamEnd)
      (tm : Timer) (now : N) (st : Locals) :
  loop_post tm st (fst (read_loop tm now st pending ending))
            (snd (read_loop tm now st pending ending)).
Proof.
  revert tm now st. induction pending as [|read rest IH]; intros tm now st.
  - cbn [read_loop].
    destruct (outcome ending) as [|reason|];
      [destruct (await tm now ending) as [settled|] eqn:Hw
      |destruct (await tm now ending) as [settled|] eqn:Hw
      |destruct (armed tm) eqn:Ha];
      try (apply loop_post_fired; (exact Ha || (eapply await_None_armed; eassumption)));
      cbn [fst snd].
    + apply summary_nil.
    + split; [reflexivity | now left].
    + repeat split. now left.
  - cbn [read_loop]. destruct (await tm now read) as [[t value]|] eqn:Hw.
    2:{ apply loop_post_fired. eapply await_None_armed; eassumption. }
    pose proof (handle_chunk_summary st value) as H1.
    destruct (handle_chunk st value) as [tr [st1|]]; cbn [fst snd flow_map] in *.
    2:{ exact H1. }
    specialize (IH (timer_after tr tm) t st1).
    destruct (read_loop (timer_after tr tm) t st1 rest ending) as [tr' ex].
    cbn [fst snd] in *. destruct ex as [st'| |error|]; cbn [loop_post] in *.
    + eapply summary_seq; eassumption.
    + eapply summary_seq; eassumption.
    + destruct H1 as [L1 [T1 R1]]. destruct IH as [T2 IH]. split.
      * rewrite terminals_app. lia.
      * destruct IH as [L2 | (-> & Ha & pre & -> & Hpre)].
        -- left. now rewrite forallb_app, L1, L2.
        -- right. cbn [timer_after armed deadline] in *.
           apply andb_prop in Ha as [Ha Hnc]. apply negb_true_iff in Hnc.
           repeat split; [exact Ha|].
           exists (tr ++ pre). split; [now rewrite app_assoc|].
           rewrite forallb_app, Hpre, andb_true_r.
           now apply deliveries_of_armed.
    + destruct H1 as [L1 [T1 R1]]. destruct IH as (L2 & T2 & Hc).
      split; [now rewrite forallb_app, L1, L2|].
      split; [rewrite terminals_app; lia|].
      rewrite existsb_app. cbn [timer_after armed] in Hc.
      destruct (armed tm); [right | now left].
      destruct Hc as [Hc | ->]; [|apply orb_true_r].
      cbn [andb] in Hc. apply negb_false_iff in Hc. now rewrite Hc.
Qed.

(** The loop hangs on a body that stalls only. *)
Lemma read_loop_hangs (pending : list (Timed (list Byte.byte))) (ending : Timed StreamEnd)
      (tm : Timer) (now : N) (st : Locals) (tr : list Effect) :
  read_loop tm now st pending ending = (tr, Hangs) ->
  outcome ending = StreamStalls.
Proof.
  revert tm now st tr. induction pending as [|read rest IH]; intros tm now st tr.
  - cbn [read_loop]. unfold fires.
    destruct (outcome ending) as [|reason|]; [| |reflexivity];
      destruct (await tm now ending); discriminate.
  - cbn [read_loop]. unfold fires.
    destruct (await tm now read) as [[t value]|]; [|discriminate].
    destruct (handle_chunk st value) as [tr1 [st1|]]; [|discriminate].
    destruct (read_loop (timer_after tr1 tm) t st1 rest ending) as [tr' ex] eqn:Hloop.
    intros H. injection H as _ ->. eapply IH. exact Hloop.
Qed.

Lemma timer_after_app (a b : list Effect) (tm : Timer) :
  timer_after b (timer_after a tm) = timer_after (a ++ b) tm.
Proof.
  unfold timer_after. cbn [deadline armed].
  now rewrite existsb_app, negb_orb, andb_assoc.
Qed.

(** The end of the loop once the chunks have all been read. *)
Definition at_end (tm : Timer) (st : Locals) (ending : StreamEnd) : list Effect * Exit :=
  match ending with
  | EndOfStream => ([], Broke st)
  | StreamFails reason => ([], Threw reason)
  | StreamStalls => if armed tm then fires tm else ([], Hangs)
  end.

(** When every read that settles does so by the deadline, the loop is the
    plain pass over the chunks, followed by the end of the stream. *)
Lemma read_loop_in_time (pending : list (Timed (list Byte.byte))) (ending : Timed StreamEnd)
      (tm : Timer) (now : N) (st : Locals) :
  (now + total_latency pending ending <= deadline tm)%N ->
  read_loop tm now st pending ending =
  match read_chunks st (map outcome pending) with
  | (tr, Return) => (tr, Returned)
  | (tr, Continue st') =>
      (tr ++ fst (at_end (timer_after tr tm) st' (outcome ending)),
       snd (at_end (timer_after tr tm) st' (outcome ending)))
  end.
Proof.
  revert tm now st. induction pending as [|read rest IH]; intros tm now st Hle.
  - cbn in *. unfold at_end, fires. cbn [timer_after armed deadline existsb negb].
    rewrite andb_true_r.
    destruct (outcome ending); rewrite ?await_on_time by exact Hle; try reflexivity.
    now destruct (armed tm).
  - cbn [total_latency fold_right] in Hle. fold (total_latency rest ending) in Hle.
    cbn [read_loop map read_chunks].
    rewrite await_on_time by lia.
    destruct (handle_chunk st (outcome read)) as [tr [st1|]]; cbn [and_then fst snd].
    2:{ reflexivity. }
    rewrite IH by (cbn [timer_after deadline]; lia).
    destruct (read_chunks st1 (map outcome rest)) as [tr' [st2|]]; [|reflexivity].
    now rewrite timer_after_app, app_assoc.
Qed.

(** When every read settles by the deadline, the loop is the plain pass
    over the chunks. *)
Lemma read_loop_on_time (pending : list (Timed (list Byte.byte))) (ending : Timed StreamEnd)
      (tm : Timer) (now : N) (st : Locals) :
  (now + total_latency pending ending <= deadline tm)%N ->
  is_StreamStalls (outcome ending) = false ->
  read_loop tm now st pending ending =
  (fst (read_chunks st (map outcome pending)),
   match snd (read_chunks st (map outcome pending)) with
   | Return => Returned
   | Continue st' =>
       match outcome ending with
       | StreamFails reason => Threw reason
       | _ => Broke st'
       end
   end).
Proof.
  intros Hle Hends. rewrite read_loop_in_time by exact Hle.
  destruct (read_chunks st (map outcome pending)) as [tr [st'|]]; [|reflexivity].
  cbn [fst snd].
  destruct (outcome ending); [| |discriminate]; cbn [at_end fst snd];
    now rewrite app_nil_r.
Qed.

(** Once the total time passes the deadline while the timer is armed and
    nothing clears it, the timer fires, however the time is spread over the
    reads. *)
Lemma read_loop_late (pending : list (Timed (list Byte.byte))) (ending : Timed StreamEnd)
      (tm : Timer) (now : N) (st st' : Locals) (trc : list Effect) :
  armed tm = true ->
  (deadline tm < now + total_latency pending ending)%N ->
  read_chunks st (map outcome pending) = (trc, Continue st') ->
  existsb is_ClearTimeout trc = false ->
  exists pre, read_loop tm now st pending ending =
              (pre ++ [TimerFires (deadline tm)], Threw (ThrowError AbortError)).
Proof.
  revert tm now st trc. induction pending as [|read rest IH];
    intros tm now st trc Ha Hlate Hrc Hnc.
  - cbn in *. exists []. unfold fires.
    destruct (outcome ending); rewrite ?await_late by assumption;
      rewrite ?Ha; reflexivity.
  - cbn [total_latency fold_right] in Hlate. fold (total_latency rest ending) in Hlate.
    cbn [read_loop map read_chunks] in *.
    destruct (N.ltb_spec (deadline tm) (now + latency read)) as [Hnow|Hnow].
    + rewrite await_late by assumption. now exists [].
    + rewrite await_on_time by exact Hnow. unfold fires.
      destruct (handle_chunk st (outcome read)) as [tr [st1|]]; cbn [and_then] in Hrc.
      2:{ discriminate. }
      destruct (read_chunks st1 (map outcome rest)) as [tr' fl] eqn:Hrest.
      injection Hrc as <- ->.
      rewrite existsb_app in Hnc. apply orb_false_iff in Hnc as [Hnc1 Hnc2].
      destruct (IH (timer_after tr tm) (now + latency read)%N st1 tr') as [pre Hpre].
      * cbn. now rewrite Ha, Hnc1.
      * cbn [timer_after deadline]. lia.
      * exact Hrest.
      * exact Hnc2.
      * rewrite Hpre. exists (tr ++ pre). now rewrite app_assoc.
Qed.


Lemma on_stream_end_terminals (st : Locals) : terminals (on_stream_end st) = 1.
Proof. unfold on_stream_end. now destruct (hasReceivedContent (dispatch st)). Qed.

Lemma on_catch_abort : on_catch (ThrowError AbortError) = [ClearTimeout; Call (OnError timeoutError)].
Proof. reflexivity. Qed.

(** C2. A stream that ends, in time, without a [done] or [error] event
    having ended the session: the session clears the timeout and calls
    [onComplete] if [onContent] was called at least once, [onError] with
    the closed-without-response error if it never was. *)
Theorem silent_close_resolves_by_content
        (t0 : N) (response : Response) (b : Body) (tr : list Effect) (st : Locals) :
  ok response = true ->
  body response = Some b ->
  outcome (ending b) = EndOfStream ->
  (t0 + total_latency (chunks b) (ending b) <= REQUEST_TIMEOUT_MS)%N ->
  read_chunks initial (map outcome (chunks b)) = (tr, Continue st) ->
  streamCompletionWithEvents (after t0 (Resolved response)) =
  SetTimeout REQUEST_TIMEOUT_MS :: tr ++
    [ClearTimeout;
     Call (if Nat.ltb 0 (count is_OnContent tr) then OnComplete else OnError closedError);
     ReleaseLock].
Proof.
  intros Hok Hbody Hend Htime Hrc.
  unfold streamCompletionWithEvents, createTimeoutController, try_block.
  rewrite await_on_time by (cbn [latency deadline]; lia).
  cbn [outcome latency]. rewrite Hok, Hbody. cbn [negb].
  rewrite read_loop_on_time by (cbn [deadline]; lia || (rewrite Hend; reflexivity)).
  pose proof (read_chunks_summary (map outcome (chunks b)) initial) as Hs.
  rewrite Hrc in *. cbn [fst snd flow_map] in *. rewrite Hend.
  destruct Hs as [_ [_ Hflag]]. cbn in Hflag.
  unfold on_stream_end. rewrite Hflag, has_content_count.
  cbn [app]. rewrite app_nil_r.
  now destruct (Nat.ltb 0 (count is_OnContent tr)).
Qed.

(** Two responses that deliver the same bytes in time, cut differently,
    give the same session. *)
Lemma rechunked_sessions_agree (t0 : N) (r1 r2 : Response) (b1 b2 : Body) :
  ok r1 = true -> ok r2 = true ->
  body r1 = Some b1 -> body r2 = Some b2 ->
  concat (map outcome (chunks b1)) = concat (map outcome (chunks b2)) ->
  outcome (ending b1) = outcome (ending b2) ->
  (t0 + total_latency (chunks b1) (ending b1) <= REQUEST_TIMEOUT_MS)%N ->
  (t0 + total_latency (chunks b2) (ending b2) <= REQUEST_TIMEOUT_MS)%N ->
  streamCompletionWithEvents (after t0 (Resolved r1)) =
  streamCompletionWithEvents (after t0 (Resolved r2)).
Proof.
  intros Hok1 Hok2 Hb1 Hb2 Hbytes Hend Ht1 Ht2.
  unfold streamCompletionWithEvents, createTimeoutController, try_block.
  rewrite !await_on_time by (cbn [latency deadline]; lia).
  cbn [outcome latency]. rewrite Hok1, Hok2, Hb1, Hb2. cbn [negb].
  rewrite !read_loop_in_time by (cbn [deadline]; lia).
  rewrite !read_chunks_concat by apply initial_buffer_ok.
  now rewrite Hbytes, Hend.
Qed.

End SessionFacts.

(** ** The timeout *)

Section Timeout.

Context {RT : Runtime}.

Definition no_timer (e : Effect) : bool :=
  negb (is_SetTimeout e || is_TimerFires e).

Lemma local_no_timer (tr : list Effect) :
  forallb is_local tr = true -> forallb no_timer tr = true.
Proof.
  induction tr as [|e tr IH]; [reflexivity|]. cbn [forallb].
  intros H. apply andb_prop in H as [He H]. rewrite (IH H), andb_true_r.
  now destruct e.
Qed.

Lemma delivery_local (tr : list Effect) :
  forallb is_delivery tr = true -> forallb is_local tr = true.
Proof.
  induction tr as [|e tr IH]; [reflexivity|]. cbn [forallb].
  intros H. apply andb_prop in H as [He H]. rewrite (IH H), andb_true_r.
  now destruct e.
Qed.

Lemma no_timer_spec (tr : list Effect) :
  forallb no_timer tr = true ->
  existsb is_SetTimeout tr = false /\ existsb is_TimerFires tr = false.
Proof.
  induction tr as [|e tr IH]; [now split|]. cbn [forallb existsb].
  intros H. apply andb_prop in H as [He H]. destruct (IH H) as [-> ->].
  unfold no_timer in He. apply negb_true_iff, orb_false_iff in He as [-> ->].
  now split.
Qed.

Lemma on_catch_local (error : Thrown) : forallb is_local (on_catch error) = true.
Proof.
  unfold on_catch. destruct error as [e|s]; [|reflexivity].
  destruct (String.eqb (err_name e) "AbortError"); [reflexivity|].
  now destruct (includes "Failed to fetch" (err_message e)
                || includes "NetworkError" (err_message e)).
Qed.

Lemma on_stream_end_local (st : Locals) : forallb is_local (on_stream_end st) = true.
Proof. unfold on_stream_end. now destruct (hasReceivedContent (dispatch st)). Qed.

(** The shape of a session in which the timer fired: deliveries only
    before it, then the release of the reader if the body was being read,
    the clearing in [catch] and [onError] with the timeout message. *)
Definition timed_out (rest : list Effect) : Prop :=
  exists pre release,
    rest = pre ++ TimerFires REQUEST_TIMEOUT_MS
               :: release ++ [ClearTimeout; Call (OnError timeoutError)] /\
    forallb is_delivery pre = true /\
    (release = [] \/ release = [ReleaseLock]).

Lemma session_shape (request : Timed FetchResult) :
  exists rest,
    streamCompletionWithEvents request = SetTimeout REQUEST_TIMEOUT_MS :: rest /\
    existsb is_SetTimeout rest = false /\
    (existsb is_TimerFires rest = false \/ timed_out rest).
Proof.
  unfold streamCompletionWithEvents, createTimeoutController, try_block.
  set (tm := {| deadline := REQUEST_TIMEOUT_MS; armed := true |}).
  assert (Hplain : forall tr, forallb no_timer tr = true ->
            exists rest, [SetTimeout REQUEST_TIMEOUT_MS] ++ tr =
                         SetTimeout REQUEST_TIMEOUT_MS :: rest /\
                         existsb is_SetTimeout rest = false /\
                         (existsb is_TimerFires rest = false \/ timed_out rest)).
  { intros tr H. exists tr. destruct (no_timer_spec tr H) as [H1 H2].
    repeat split; [exact H1 | now left]. }
  destruct (await tm 0 request) as [[t [reason|response]]|].
  - apply Hplain. cbn [app]. apply local_no_timer, on_catch_local.
  - destruct (ok response); cbn [negb].
    2:{ destruct (response_json response) as [|errorData]; apply Hplain;
          [reflexivity|].
        cbn [app forallb no_timer is_SetTimeout is_TimerFires orb negb andb].
        apply local_no_timer, on_catch_local. }
    destruct (body response) as [b|].
    2:{ apply Hplain. cbn [app forallb no_timer is_SetTimeout is_TimerFires orb negb andb].
        apply local_no_timer, on_catch_local. }
    pose proof (read_loop_spec (chunks b) (ending b) tm t initial) as H.
    destruct (read_loop tm t initial (chunks b) (ending b)) as [tr ex].
    cbn [fst snd] in H. destruct ex as [st| |error|]; cbn [loop_post] in H.
    4:{ destruct H as [L _]. apply Hplain. rewrite app_nil_r.
        now apply local_no_timer. }
    + destruct H as [L _]. apply Hplain. rewrite app_nil_r, !forallb_app.
      rewrite (local_no_timer _ L), (local_no_timer _ (on_stream_end_local st)).
      reflexivity.
    + destruct H as [L _]. apply Hplain. rewrite app_nil_r, !forallb_app.
      rewrite (local_no_timer _ L). reflexivity.
    + destruct H as [_ [L | (-> & _ & pre & -> & Hpre)]].
      * apply Hplain. rewrite !forallb_app.
        rewrite (local_no_timer _ L), (local_no_timer _ (on_catch_local error)).
        reflexivity.
      * rewrite on_catch_abort. cbn [deadline tm].
        exists (pre ++ TimerFires REQUEST_TIMEOUT_MS
                    :: [ReleaseLock] ++ [ClearTimeout; Call (OnError timeoutError)]).
        split; [now rewrite <- !app_assoc|].
        split.
        -- rewrite existsb_app.
           destruct (no_timer_spec pre (local_no_timer _ (delivery_local _ Hpre))) as [-> _].
           reflexivity.
        -- right. exists pre, [ReleaseLock]. repeat split; [exact Hpre | now right].
  - rewrite on_catch_abort. cbn [deadline tm].
    exists (TimerFires REQUEST_TIMEOUT_MS :: [ClearTimeout; Call (OnError timeoutError)]).
    repeat split. right. exists [], []. repeat split. now left.
Qed.

(** The time a session needs when nothing cuts it short. *)
Definition time_needed (request : Timed FetchResult) : N :=
  (latency request +
   match outcome request with
   | Resolved response =>
       if ok response then
         match body response with
         | Some b => total_latency (chunks b) (ending b)
         | None => 0
         end
       else 0
   | Rejected _ => 0
   end)%N.

Lemma on_time_never_fires (request : Timed FetchResult) :
  (time_needed request <= REQUEST_TIMEOUT_MS)%N ->
  stalls request = false ->
  existsb is_TimerFires (streamCompletionWithEvents request) = false.
Proof.
  intros Htime Hends. unfold time_needed in Htime. unfold stalls in Hends.
  assert (Hplain : forall tr, forallb no_timer tr = true ->
            existsb is_TimerFires ([SetTimeout REQUEST_TIMEOUT_MS] ++ tr) = false).
  { intros tr H. cbn. now destruct (no_timer_spec tr H). }
  unfold streamCompletionWithEvents, createTimeoutController, try_block.
  rewrite await_on_time by (cbn [deadline]; lia).
  destruct (outcome request) as [reason|response].
  - apply Hplain. apply local_no_timer, on_catch_local.
  - unfold response_json. rewrite Hends. unfold body_stalls in Hends.
    destruct (ok response); cbn [negb].
    2:{ apply Hplain. cbn [app forallb no_timer is_SetTimeout is_TimerFires orb negb andb].
        apply local_no_timer, on_catch_local. }
    destruct (body response) as [b|].
    2:{ apply Hplain. cbn [app forallb no_timer is_SetTimeout is_TimerFires orb negb andb].
        apply local_no_timer, on_catch_local. }
    rewrite read_loop_on_time by (cbn [deadline]; lia || exact Hends).
    pose proof (read_chunks_summary (map outcome (chunks b)) initial) as [L _].
    destruct (read_chunks initial (map outcome (chunks b))) as [tr [st|]];
      cbn [fst snd] in *.
    + destruct (outcome (ending b)); try discriminate; apply Hplain;
        rewrite ?app_nil_r, !forallb_app, (local_no_timer _ L);
        rewrite ?(local_no_timer _ (on_stream_end_local st)),
                ?(local_no_timer _ (on_catch_local _)); reflexivity.
    + apply Hplain. rewrite app_nil_r, !forallb_app, (local_no_timer _ L). reflexivity.
Qed.

Lemma late_fetch_fires (request : Timed FetchResult) :
  (REQUEST_TIMEOUT_MS < latency request)%N ->
  streamCompletionWithEvents request =
  [SetTimeout REQUEST_TIMEOUT_MS; TimerFires REQUEST_TIMEOUT_MS;
   ClearTimeout; Call (OnError timeoutError)].
Proof.
  intros Hlate. unfold streamCompletionWithEvents, createTimeoutController, try_block.
  rewrite await_late by (cbn; lia || reflexivity). reflexivity.
Qed.

Lemma late_stream_fires (request : Timed FetchResult) (response : Response) (b : Body)
      (trc : list Effect) (st : Locals) :
  outcome request = Resolved response ->
  ok response = true ->
  body response = Some b ->
  read_chunks initial (map outcome (chunks b)) = (trc, Continue st) ->
  existsb is_ClearTimeout trc = false ->
  (REQUEST_TIMEOUT_MS < latency request + total_latency (chunks b) (ending b))%N ->
  existsb is_TimerFires (streamCompletionWithEvents request) = true.
Proof.
  intros Hout Hok Hbody Hrc Hnc Hlate.
  destruct (N.ltb_spec REQUEST_TIMEOUT_MS (latency request)) as [Hf|Hf].
  { now rewrite late_fetch_fires. }
  unfold streamCompletionWithEvents, createTimeoutController, try_block.
  rewrite await_on_time by (cbn [deadline]; lia).
  rewrite Hout, Hok, Hbody. cbn [negb].
  destruct (read_loop_late (chunks b) (ending b)
              {| deadline := REQUEST_TIMEOUT_MS; armed := true |}
              (0 + latency request)%N initial st trc eq_refl) as [pre Hpre];
    [cbn [deadline]; lia | exact Hrc | exact Hnc |].
  rewrite Hpre. rewrite !existsb_app. cbn. now rewrite !orb_true_r.
Qed.

Lemma stalled_stream_fires (request : Timed FetchResult) (response : Response) (b : Body)
      (trc : list Effect) (st : Locals) :
  outcome request = Resolved response ->
  ok response = true ->
  body response = Some b ->
  read_chunks initial (map outcome (chunks b)) = (trc, Continue st) ->
  existsb is_ClearTimeout trc = false ->
  outcome (ending b) = StreamStalls ->
  existsb is_TimerFires (streamCompletionWithEvents request) = true.
Proof.
  intros Hout Hok Hbody Hrc Hnc Hstalls.
  destruct (N.ltb_spec REQUEST_TIMEOUT_MS
                       (latency request + total_latency (chunks b) (ending b)))
    as [Hlate|Htime].
  { eapply late_stream_fires; eassumption. }
  unfold streamCompletionWithEvents, createTimeoutController, try_block.
  rewrite await_on_time by (cbn [deadline]; lia).
  rewrite Hout, Hok, Hbody. cbn [negb].
  rewrite read_loop_in_time by (cbn [deadline]; lia).
  rewrite Hrc, Hstalls. cbn [at_end timer_after armed andb]. rewrite Hnc.
  cbn [negb fires fst snd]. rewrite !existsb_app. cbn. now rewrite !orb_true_r.
Qed.

(** C8. The timer is set once, at the start of the session, to 30000 ms,
    and nothing sets it again.  It fires at most once, at 30000 ms from
    the start, and only when nothing cleared it first: before it fires the
    session has only delivered deltas and sources (no [done], no [error],
    no end of stream, each of which clears it).  When it fires, the pending
    network operation is aborted and the session ends with [onError] and
    the timeout message.  Whether it fires depends on the time since the
    start only, not on when chunks came: it never fires in a session that
    needs no more than 30000 ms and whose stream does not stall, and it
    fires as soon as the time needed passes 30000 ms while nothing has
    cleared it, however many chunks arrived meanwhile; so it does when the
    stream stalls while nothing has cleared it. *)
Theorem timeout_is_fixed_from_session_start (request : Timed FetchResult) :
  REQUEST_TIMEOUT_MS = 30000%N /\
  (exists rest,
      streamCompletionWithEvents request = SetTimeout REQUEST_TIMEOUT_MS :: rest /\
      existsb is_SetTimeout rest = false /\
      (existsb is_TimerFires rest = false \/ timed_out rest)) /\
  ((time_needed request <= REQUEST_TIMEOUT_MS)%N ->
   stalls request = false ->
   existsb is_TimerFires (streamCompletionWithEvents request) = false) /\
  ((REQUEST_TIMEOUT_MS < latency request)%N ->
   streamCompletionWithEvents request =
   [SetTimeout REQUEST_TIMEOUT_MS; TimerFires REQUEST_TIMEOUT_MS;
    ClearTimeout; Call (OnError timeoutError)]) /\
  (forall response b trc st,
      outcome request = Resolved response ->
      ok response = true ->
      body response = Some b ->
      read_chunks initial (map outcome (chunks b)) = (trc, Continue st) ->
      existsb is_ClearTimeout trc = false ->
      (REQUEST_TIMEOUT_MS < time_needed request)%N ->
      existsb is_TimerFires (streamCompletionWithEvents request) = true) /\
  (forall response b trc st,
      outcome request = Resolved response ->
      ok response = true ->
      body response = Some b ->
      read_chunks initial (map outcome (chunks b)) = (trc, Continue st) ->
      existsb is_ClearTimeout trc = false ->
      outcome (ending b) = StreamStalls ->
      existsb is_TimerFires (streamCompletionWithEvents request) = true).
Proof.
  split; [reflexivity|].
  split; [apply session_shape|].
  split; [apply on_time_never_fires|].
  split; [apply late_fetch_fires|].
  split; [|apply stalled_stream_fires].
  intros response b trc st Hout Hok Hbody Hrc Hnc Hlate.
  eapply late_stream_fires; try eassumption.
  unfold time_needed in Hlate. now rewrite Hout, Hok, Hbody in Hlate.
Qed.

End Timeout.

(** ** How a session ends *)

Section Termination.

Context {RT : Runtime}.

Lemma await_Some {A : Type} (tm : Timer) (now : N) (op : Timed A) (t : N) (a : A) :
  await tm now op = Some (t, a) -> a = outcome op.
Proof.
  unfold await. destruct (armed tm && (deadline tm <? now + latency op)%N);
    [discriminate|]. intros H. now injection H as _ <-.
Qed.

(** What the [try] block has done when it is left, and when it never is. *)
Lemma try_block_spec (request : Timed FetchResult) :
  let tm := {| deadline := REQUEST_TIMEOUT_MS; armed := true |} in
  match snd (try_block tm request) with
  | Completes => terminals (fst (try_block tm request)) = 1
  | Throws _ => terminals (fst (try_block tm request)) = 0
  | NeverEnds =>
      terminals (fst (try_block tm request)) = 0 /\
      forallb is_local (fst (try_block tm request)) = true /\
      existsb is_ClearTimeout (fst (try_block tm request)) = true /\
      stalls request = true
  end.
Proof.
  intros tm. unfold try_block, stalls.
  destruct (await tm 0 request) as [[t [reason|response]]|] eqn:Hw;
    cbn [fst snd]; try reflexivity.
  apply await_Some in Hw. rewrite <- Hw.
  destruct (ok response); cbn [negb].
  2:{ unfold response_json. destruct (body_stalls response); cbn [fst snd];
        [repeat split | reflexivity]. }
  unfold body_stalls.
  destruct (body response) as [b|]; [|reflexivity].
  pose proof (read_loop_spec (chunks b) (ending b) tm t initial) as H.
  destruct (read_loop tm t initial (chunks b) (ending b)) as [tr ex] eqn:Hloop.
  cbn [fst snd] in H. destruct ex as [st| |error|]; cbn [loop_post fst snd] in *.
  - destruct H as [_ [T _]].
    rewrite !terminals_app, on_stream_end_terminals, T. reflexivity.
  - destruct H as [_ [T _]]. rewrite !terminals_app, T. reflexivity.
  - destruct H as [T _]. rewrite !terminals_app, T. reflexivity.
  - destruct H as (L & T & [Ha | Hc]); [discriminate|].
    repeat split; try assumption.
    now rewrite (read_loop_hangs _ _ _ _ _ _ Hloop).
Qed.


Lemma never_ends_spec (request : Timed FetchResult) :
  never_ends request = true ->
  stalls request = true /\
  existsb is_ClearTimeout (streamCompletionWithEvents request) = true /\
  existsb is_TimerFires (streamCompletionWithEvents request) = false.
Proof.
  unfold streamCompletionWithEvents, never_ends, createTimeoutController.
  cbn [snd]. pose proof (try_block_spec request) as H. cbv zeta in H.
  destruct (try_block {| deadline := REQUEST_TIMEOUT_MS; armed := true |} request)
    as [tr completion].
  cbn [fst snd] in *. destruct completion as [|error|]; try discriminate.
  intros _. destruct H as (_ & L & C & S).
  split; [exact S|]. rewrite app_nil_r. cbn [app existsb is_ClearTimeout is_TimerFires orb].
  split; [exact C|].
  now destruct (no_timer_spec tr (local_no_timer tr L)).
Qed.




End Termination.

(** ** The transcript *)

Section Transcript.

Context {RT : Runtime}.





Lemma update_where_last (id : string) (f : Msg -> Msg) (pre : list Msg) (m : Msg) :
  Message.id m = id ->
  update_where id f (pre ++ [m]) = update_where id f pre ++ [f m].
Proof.
  intros Hid. unfold update_where. rewrite map_app. cbn [map].
  now rewrite Hid, String.eqb_refl.
Qed.

Lemma onComplete_messages (bot : string) (saved : bool) (st : AppState) :
  messages (onComplete bot saved st) =
  update_where bot (with_isThinking false) (messages st).
Proof.
  unfold onComplete, saveChatToHistory.
  repeat match goal with
         | |- context [if ?b then _ else _] => destruct b
         end; reflexivity.
Qed.



Lemma bot_message_last (st : AppState) (pre : list Msg) (m : Msg) :
  messages st = pre ++ [m] -> bot_message st = Some m.
Proof. intros H. unfold bot_message. now rewrite H, rev_app_distr. Qed.



(** The message [onError] shows. *)
Definition errorMsg_of (err : JSError) : string :=
  if String.eqb (err_message err) "" then "Unknown error occurred" else err_message err.

(** C1, as the code has it.  [onError] replaces the content of the
    assistant message by the error annotation whether or not content had
    streamed, leaves every other message as it was, and shows the error
    out-of-band as well, in every case. *)
Theorem onError_replaces_content (bot : string) (err : JSError) (st : AppState) :
  map (fun m => Message.content m) (messages (onError bot err st)) =
  map (fun m => if String.eqb (Message.id m) bot
                then "**Error:** " +++ errorMsg_of err
                else Message.content m)
      (messages st) /\
  error (onError bot err st) = Some (errorMsg_of err) /\
  isLoading (onError bot err st) = false.
Proof.
  unfold onError, updateBotMessage, update_where. cbn.
  repeat split. rewrite map_map. apply map_ext. intros m.
  now destruct (String.eqb (Message.id m) bot).
Qed.

(** C9. [onComplete] clears the retry snapshot and [onError] keeps it; a
    retry with no snapshot changes nothing and schedules no send; the one
    slot holds what the latest accepted send stored, whatever it held
    before. *)
Theorem retry_snapshot_lifecycle :
  (forall bot saved st, lastSendRef (onComplete bot saved st) = None) /\
  (forall bot err st, lastSendRef (onError bot err st) = lastSendRef st) /\
  (forall st, lastSendRef st = None -> handleRetry st = (st, false)) /\
  (forall bot saved st, handleRetry (onComplete bot saved st) = (onComplete bot saved st, false)) /\
  (forall clock saved st started,
      handleSendMessage clock saved st = Some started ->
      lastSendRef (state started) =
      Some {| snap_messages := messages st; snap_input := trim (input st) |}).
Proof.
  assert (Hcomplete : forall bot saved st, lastSendRef (onComplete bot saved st) = None).
  { intros bot saved st. unfold onComplete, saveChatToHistory.
    repeat match goal with
           | |- context [if ?b then _ else _] => destruct b
           end; reflexivity. }
  assert (Hretry : forall st, lastSendRef st = None -> handleRetry st = (st, false)).
  { intros st H. unfold handleRetry. now rewrite H. }
  repeat split.
  - exact Hcomplete.
  - exact Hretry.
  - intros bot saved st. apply Hretry, Hcomplete.
  - intros clock saved st started. unfold handleSendMessage.
    destruct (String.eqb (trim (input st)) "" || isLoading st); [discriminate|].
    intros H. injection H as <-. cbn.
    now destruct (hasSavedCurrentChat st).
Qed.

End Transcript.

(** * Further properties of the string primitives *)

Module Trim.

Lemma rev_onto_app (s acc : string) : rev_onto s acc = reverse s +++ acc.
Proof.
  unfold reverse. revert acc. induction s as [|c s IH]; intros acc; [reflexivity|].
  cbn [rev_onto]. rewrite IH, (IH (String c "")), append_assoc. reflexivity.
Qed.

Lemma reverse_app (a b : string) : reverse (a +++ b) = reverse b +++ reverse a.
Proof.
  induction a as [|c a IH].
  - cbn. now rewrite append_empty_r.
  - unfold reverse in *. cbn [append rev_onto].
    rewrite (rev_onto_app (a +++ b)), (rev_onto_app a). unfold reverse.
    now rewrite IH, append_assoc.
Qed.

Lemma reverse_involutive (s : string) : reverse (reverse s) = s.
Proof.
  induction s as [|c s IH]; [reflexivity|].
  change (String c s) with (String c "" +++ s) at 1.
  rewrite reverse_app, reverse_app, IH. reflexivity.
Qed.

(** Whether [s] begins with a white space character. *)
Definition starts_space (s : string) : bool :=
  match s with
  | EmptyString => false
  | String c1 s1 =>
      is_space1 c1 ||
      match s1 with
      | EmptyString => false
      | String c2 s2 =>
          is_space2 c1 c2 ||
          match s2 with
          | EmptyString => false
          | String c3 _ => is_space3 c1 c2 c3
          end
      end
  end.

(** The same for a reversed string. *)
Definition starts_space_reversed (s : string) : bool :=
  match s with
  | EmptyString => false
  | String c1 s1 =>
      is_space1 c1 ||
      match s1 with
      | EmptyString => false
      | String c2 s2 =>
          is_space2 c2 c1 ||
          match s2 with
          | EmptyString => false
          | String c3 _ => is_space3 c3 c2 c1
          end
      end
  end.

Lemma trimStart_unfold (s : string) :
  trimStart s =
  match s with
  | EmptyString => EmptyString
  | String c1 s1 =>
      if is_space1 c1 then trimStart s1
      else
        match s1 with
        | EmptyString => s
        | String c2 s2 =>
            if is_space2 c1 c2 then trimStart s2
            else
              match s2 with
              | EmptyString => s
              | String c3 s3 => if is_space3 c1 c2 c3 then trimStart s3 else s
              end
        end
  end.
Proof. destruct s; reflexivity. Qed.

Lemma trimStart_reversed_unfold (s : string) :
  trimStart_reversed s =
  match s with
  | EmptyString => EmptyString
  | String c1 s1 =>
      if is_space1 c1 then trimStart_reversed s1
      else
        match s1 with
        | EmptyString => s
        | String c2 s2 =>
            if is_space2 c2 c1 then trimStart_reversed s2
            else
              match s2 with
              | EmptyString => s
              | String c3 s3 =>
                  if is_space3 c3 c2 c1 then trimStart_reversed s3 else s
              end
        end
  end.
Proof. destruct s; reflexivity. Qed.

Lemma trimStart_clean (s : string) : starts_space s = false -> trimStart s = s.
Proof.
  rewrite ?trimStart_unfold, ?trimStart_reversed_unfold.
  destruct s as [|c1 [|c2 [|c3 s3]]]; cbn [starts_space starts_space_reversed];
    intros H;
    repeat match goal with
           | |- context [if ?b then _ else _] =>
               destruct b; cbn [orb] in H; try discriminate
           end; reflexivity.
Qed.

Lemma trimStart_reversed_clean (s : string) :
  starts_space_reversed s = false -> trimStart_reversed s = s.
Proof.
  rewrite ?trimStart_unfold, ?trimStart_reversed_unfold.
  destruct s as [|c1 [|c2 [|c3 s3]]]; cbn [starts_space starts_space_reversed];
    intros H;
    repeat match goal with
           | |- context [if ?b then _ else _] =>
               destruct b; cbn [orb] in H; try discriminate
           end; reflexivity.
Qed.

Lemma trimStart_result (n : nat) (s : string) :
  String.length s <= n -> starts_space (trimStart s) = false.
Proof.
  revert s. induction n as [|n IH]; intros s Hn.
  - destruct s; [reflexivity | cbn in Hn; lia].
  - destruct s as [|c1 [|c2 [|c3 s3]]]; rewrite trimStart_unfold; cbv beta match; [reflexivity|..].
    + destruct (is_space1 c1) eqn:E1; [reflexivity|].
      cbn [starts_space starts_space_reversed]. now rewrite E1.
    + destruct (is_space1 c1) eqn:E1; [apply IH; cbn in *; lia|].
      destruct (is_space2 c1 c2) eqn:E2; [reflexivity|].
      cbn [starts_space]. now rewrite E1, E2.
    + destruct (is_space1 c1) eqn:E1; [apply IH; cbn in *; lia|].
      destruct (is_space2 c1 c2) eqn:E2; [apply IH; cbn in *; lia|].
      destruct (is_space3 c1 c2 c3) eqn:E3; [apply IH; cbn in *; lia|].
      cbn [starts_space starts_space_reversed]. now rewrite E1, E2, E3.
Qed.

Lemma trimStart_reversed_result (n : nat) (s : string) :
  String.length s <= n -> starts_space_reversed (trimStart_reversed s) = false.
Proof.
  revert s. induction n as [|n IH]; intros s Hn.
  - destruct s; [reflexivity | cbn in Hn; lia].
  - destruct s as [|c1 [|c2 [|c3 s3]]]; rewrite trimStart_reversed_unfold; cbv beta match; [reflexivity|..].
    + destruct (is_space1 c1) eqn:E1; [reflexivity|].
      cbn [starts_space starts_space_reversed]. now rewrite E1.
    + destruct (is_space1 c1) eqn:E1; [apply IH; cbn in *; lia|].
      destruct (is_space2 c2 c1) eqn:E2; [reflexivity|].
      cbn [starts_space_reversed]. now rewrite E1, E2.
    + destruct (is_space1 c1) eqn:E1; [apply IH; cbn in *; lia|].
      destruct (is_space2 c2 c1) eqn:E2; [apply IH; cbn in *; lia|].
      destruct (is_space3 c3 c2 c1) eqn:E3; [apply IH; cbn in *; lia|].
      cbn [starts_space starts_space_reversed]. now rewrite E1, E2, E3.
Qed.

(** What is trimmed off the reversed string is a prefix of it. *)
Lemma trimStart_reversed_suffix (n : nat) (s : string) :
  String.length s <= n -> exists w, s = w +++ trimStart_reversed s.
Proof.
  revert s. induction n as [|n IH]; intros s Hn.
  - destruct s; [now exists "" | cbn in Hn; lia].
  - destruct s as [|c1 [|c2 [|c3 s3]]]; rewrite trimStart_reversed_unfold; cbv beta match; [now exists ""|..].
    + destruct (is_space1 c1); [now exists (String c1 "") | now exists ""].
    + destruct (is_space1 c1).
      { destruct (IH (String c2 "")) as [w Hw]; [cbn in *; lia|].
        exists (String c1 w). cbn [append]. now rewrite <- Hw. }
      destruct (is_space2 c2 c1); [now exists (String c1 (String c2 "")) | now exists ""].
    + destruct (is_space1 c1).
      { destruct (IH (String c2 (String c3 s3))) as [w Hw]; [cbn in *; lia|].
        exists (String c1 w). cbn [append]. now rewrite <- Hw. }
      destruct (is_space2 c2 c1).
      { destruct (IH (String c3 s3)) as [w Hw]; [cbn in *; lia|].
        exists (String c1 (String c2 w)). cbn [append]. now rewrite <- Hw. }
      destruct (is_space3 c3 c2 c1).
      { destruct (IH s3) as [w Hw]; [cbn in *; lia|].
        exists (String c1 (String c2 (String c3 w))). cbn [append]. now rewrite <- Hw. }
      now exists "".
Qed.

Lemma trimEnd_prefix (s : string) : exists w, s = trimEnd s +++ w.
Proof.
  destruct (trimStart_reversed_suffix _ (reverse s) (le_n _)) as [w Hw].
  exists (reverse w). unfold trimEnd.
  rewrite <- reverse_app, <- Hw. now rewrite reverse_involutive.
Qed.

Lemma starts_space_prefix (p w : string) :
  starts_space (p +++ w) = false -> starts_space p = false.
Proof.
  destruct p as [|c1 [|c2 [|c3 p3]]]; cbn [append starts_space]; [reflexivity|..].
  - destruct w; cbn [starts_space]; intros H;
      [exact H | now apply orb_false_iff in H as [-> _]].
  - destruct w; cbn [starts_space]; intros H; [exact H|].
    apply orb_false_iff in H as [-> H]. cbn [orb].
    now apply orb_false_iff in H as [-> _].
  - trivial.
Qed.

Lemma trimEnd_idempotent (s : string) : trimEnd (trimEnd s) = trimEnd s.
Proof.
  unfold trimEnd. rewrite reverse_involutive.
  now rewrite (trimStart_reversed_clean _ (trimStart_reversed_result _ _ (le_n _))).
Qed.

(** [s.trim().trim()] is [s.trim()]. *)
Lemma trim_idempotent (s : string) : trim (trim s) = trim s.
Proof.
  unfold trim.
  destruct (trimEnd_prefix (trimStart s)) as [w Hw].
  assert (Hclean : starts_space (trimEnd (trimStart s)) = false).
  { apply (starts_space_prefix _ w). rewrite <- Hw. apply (trimStart_result _ _ (le_n _)). }
  rewrite (trimStart_clean _ Hclean). apply trimEnd_idempotent.
Qed.

End Trim.

(** * Further properties of the session *)

Section MoreLines.

(** A text without line feed. *)
Fixpoint no_LF (s : string) : bool :=
  match s with
  | EmptyString => true
  | String c s' => negb (Ascii.eqb c LF) && no_LF s'
  end.

Lemma lines_rest_no_LF (s : string) : no_LF s = true -> lines_rest s = ([], s).
Proof.
  induction s as [|c s IH]; [reflexivity|]. cbn [no_LF lines_rest].
  intros H. apply andb_prop in H as [Hc Hs]. apply negb_true_iff in Hc.
  now rewrite (IH Hs), Hc.
Qed.

Lemma no_LF_of_lines_rest (s : string) : lines_rest s = ([], s) -> no_LF s = true.
Proof.
  induction s as [|c s IH]; [reflexivity|]. cbn [no_LF lines_rest].
  destruct (lines_rest s) as [ls r]. destruct (Ascii.eqb c LF); [discriminate|].
  destruct ls as [|l ls]; [|discriminate].
  intros H. injection H as ->. now rewrite IH.
Qed.

Lemma no_LF_app (a b : string) : no_LF (a +++ b) = no_LF a && no_LF b.
Proof.
  induction a as [|c a IH]; [reflexivity|]. cbn [append no_LF].
  now rewrite IH, andb_assoc.
Qed.

End MoreLines.

Section MoreSession.

Context {RT : Runtime}.

Lemma read_chunks_app (a b : list (list Byte.byte)) (st : Locals) :
  read_chunks st (a ++ b) = and_then (read_chunks st a) (fun st' => read_chunks st' b).
Proof.
  revert st. induction a as [|v a IH]; intros st.
  - cbn. now destruct (read_chunks st b).
  - cbn [app read_chunks]. rewrite and_then_assoc.
    apply and_then_ext. intros _ st' _. apply IH.
Qed.

Lemma read_chunks_buffer_ok (values : list (list Byte.byte)) (st st' : Locals)
      (tr : list Effect) :
  buffer_ok st -> read_chunks st values = (tr, Continue st') -> buffer_ok st'.
Proof.
  revert st tr. induction values as [|v values IH]; intros st tr Hok H.
  - cbn in H. now injection H as _ <-.
  - cbn [read_chunks] in H.
    destruct (handle_chunk st v) as [tr1 [st1|]] eqn:H1; cbn [and_then] in H; [|discriminate].
    destruct (read_chunks st1 values) as [tr2 fl] eqn:H2.
    injection H as _ ->.
    eapply IH; [|exact H2]. eapply handle_chunk_buffer_ok. exact H1.
Qed.

(** A chunk that brings no line feed only grows the buffer. *)
Lemma handle_chunk_no_LF (st : Locals) (value : list Byte.byte) :
  buffer_ok st ->
  no_LF (snd (decode (decoder st) value)) = true ->
  handle_chunk st value =
  ([], Continue {| decoder := fst (decode (decoder st) value);
                   buffer := buffer st +++ snd (decode (decoder st) value);
                   dispatch := dispatch st |}).
Proof.
  intros Hok Hno. rewrite handle_chunk_eq.
  rewrite lines_rest_no_LF; [reflexivity|].
  rewrite no_LF_app, Hno, andb_true_r. now apply no_LF_of_lines_rest.
Qed.

(** X1. A last chunk without line terminator changes nothing of what the
    session does: whatever the chunks before it, it calls no callback, does
    not touch the pending event name or the content flag, and the stream
    ends as it would have without it. *)
Theorem unterminated_tail_is_discarded
        (values : list (list Byte.byte)) (tail : list Byte.byte)
        (tr : list Effect) (st : Locals) :
  read_chunks initial values = (tr, Continue st) ->
  no_LF (snd (decode (decoder st) tail)) = true ->
  exists st',
    read_chunks initial (values ++ [tail]) = (tr, Continue st') /\
    dispatch st' = dispatch st /\
    on_stream_end st' = on_stream_end st.
Proof.
  intros Hrc Hno.
  assert (Hok : buffer_ok st)
    by (eapply read_chunks_buffer_ok; [apply initial_buffer_ok | exact Hrc]).
  eexists. rewrite read_chunks_app, Hrc. cbn [and_then read_chunks].
  rewrite (handle_chunk_no_LF st tail Hok Hno). cbn [and_then].
  rewrite app_nil_r. repeat split.
Qed.

(** A value whose conversion to a string throws; it is an object or an
    array, hence truthy. *)
Definition unprintable (v : Value) : bool :=
  match v with
  | Some j => negb (printable j)
  | None => false
  end.

Lemma Error_of_message (message : Value) (fallback : string) :
  Error_of (or_else message (JString fallback)) =
  if unprintable message then None
  else Some (new_Error (if truthy message then ToString message else fallback)).
Proof.
  unfold Error_of, or_else, unprintable.
  destruct message as [j|]; [|reflexivity].
  destruct (truthy (Some j)) eqn:Ht.
  - cbn [ToString]. now destruct (printable j).
  - destruct j as [|b|n|s|items|props]; try discriminate; reflexivity.
Qed.

Lemma handle_data_error (d : Dispatch) (payload : string) (data : JValue number)
      (message : Value) :
  currentEvent d = "error" -> JSON_parse payload = Some data ->
  member data "message" = Some message ->
  handle_data d payload =
  if unprintable message then ([ClearTimeout], Continue d)
  else
    ([ClearTimeout;
      Call (OnError (new_Error (if truthy message then ToString message
                                else "Unknown error from server")))], Return).
Proof.
  intros Hev Hp Hm. unfold handle_data. rewrite Hp, Hev. cbn [String.eqb Ascii.eqb Bool.eqb].
  rewrite Hm, Error_of_message. now destruct (unprintable message).
Qed.

(** X2. A decoded [error] frame whose payload is not [null] clears the
    timeout.  When its [message] can be printed, or is falsy, the session
    ends there: [onError] gets the server's [message] when it is truthy and
    the generic text otherwise, and neither the rest of the chunk nor any
    later chunk is processed.  When its [message] cannot be printed (an
    object with a key [toString]), [new Error] throws inside the [try]: the
    frame is dropped without a callback and the loop goes on. *)
Theorem error_frame_ends_the_session
        (st : Locals) (value : list Byte.byte) (more : list (list Byte.byte))
        (before rest : list string) (left : string)
        (tr : list Effect) (d : Dispatch) (payload : string) (data : JValue number)
        (message : Value) :
  lines_rest (buffer st +++ snd (decode (decoder st) value)) =
    (before ++ ("data: " +++ payload) :: rest, left) ->
  for_lines (dispatch st) before = (tr, Continue d) ->
  currentEvent d = "error" ->
  JSON_parse payload = Some data ->
  member data "message" = Some message ->
  (unprintable message = false ->
   read_chunks st (value :: more) =
   (tr ++ [ClearTimeout;
           Call (OnError (new_Error (if truthy message then ToString message
                                     else "Unknown error from server")))],
    Return)) /\
  (unprintable message = true ->
   handle_line d ("data: " +++ payload) = ([ClearTimeout], Continue d)).
Proof.
  intros Hlines Hbefore Hev Hparse Hm.
  pose proof (handle_data_error d payload data message Hev Hparse Hm) as Hdata.
  split; intros Hprint; rewrite Hprint in Hdata.
  - apply read_chunks_return.
    rewrite handle_chunk_eq, Hlines. cbn [fst snd].
    rewrite for_lines_app, Hbefore. cbn [and_then for_lines].
    rewrite handle_line_data, Hdata. reflexivity.
  - now rewrite handle_line_data.
Qed.

Definition ignored (d : Dispatch) (line : string) : Prop :=
  (startsWith "event: " line = false /\ startsWith "data: " line = false /\ line <> "") \/
  (exists payload, line = "data: " +++ payload /\
     currentEvent d <> "content" /\ currentEvent d <> "reasoning" /\
     currentEvent d <> "sources" /\ currentEvent d <> "error" /\
     currentEvent d <> "done").

Lemma handle_data_unknown (d : Dispatch) (payload : string) :
  currentEvent d <> "content" -> currentEvent d <> "reasoning" ->
  currentEvent d <> "sources" -> currentEvent d <> "error" ->
  currentEvent d <> "done" ->
  handle_data d payload = ([], Continue d).
Proof.
  intros H1 H2 H3 H4 H5. unfold handle_data.
  destruct (JSON_parse payload); [|reflexivity].
  apply String.eqb_neq in H1, H2, H3, H4, H5.
  now rewrite H1, H2, H3, H4, H5.
Qed.

Lemma handle_line_ignored (d : Dispatch) (line : string) :
  ignored d line -> handle_line d line = ([], Continue d).
Proof.
  intros [(He & Hd & Hne) | (payload & -> & H)].
  - unfold handle_line. rewrite He, Hd.
    apply String.eqb_neq in Hne. now rewrite Hne.
  - rewrite handle_line_data. now apply handle_data_unknown.
Qed.

(** X3. A line that is neither an event line, a data line nor empty (a
    comment, an [id:] field, a lone carriage return), and a data line met
    under an event name other than the five the session knows, does nothing,
    whatever the payload: the lines around it are handled as if it were not
    there. *)
Theorem unknown_lines_and_events_are_ignored
        (d d1 : Dispatch) (before after : list string) (line : string)
        (tr : list Effect) :
  for_lines d before = (tr, Continue d1) ->
  ignored d1 line ->
  for_lines d (before ++ line :: after) = for_lines d (before ++ after).
Proof.
  intros Hbefore Hign. rewrite !for_lines_app, Hbefore.
  cbn [and_then for_lines]. rewrite (handle_line_ignored d1 line Hign).
  cbn [and_then app]. now destruct (for_lines d1 after).
Qed.

End MoreSession.

Section MoreTraces.

Context {RT : Runtime}.

Definition is_ReleaseLock (e : Effect) : bool :=
  match e with ReleaseLock => true | _ => false end.

Definition releases (tr : list Effect) : nat := length (filter is_ReleaseLock tr).

Lemma releases_app (a b : list Effect) : releases (a ++ b) = releases a + releases b.
Proof. unfold releases. now rewrite filter_app, length_app. Qed.

Lemma local_releases (tr : list Effect) : forallb is_local tr = true -> releases tr = 0.
Proof.
  induction tr as [|e tr IH]; [reflexivity|]. cbn [forallb].
  intros H. apply andb_prop in H as [He H].
  change (e :: tr) with ([e] ++ tr). rewrite releases_app, (IH H).
  now destruct e.
Qed.

Lemma read_loop_releases (pending : list (Timed (list Byte.byte))) (ending : Timed StreamEnd)
      (tm : Timer) (now : N) (st : Locals) :
  releases (fst (read_loop tm now st pending ending)) = 0.
Proof.
  pose proof (read_loop_spec pending ending tm now st) as H.
  destruct (read_loop tm now st pending ending) as [tr ex]. cbn [fst snd] in *.
  destruct ex as [st'| |error|]; cbn [loop_post] in H.
  - destruct H as [L _]. now apply local_releases.
  - destruct H as [L _]. now apply local_releases.
  - destruct H as [_ [L | (_ & _ & pre & -> & Hpre)]].
    + now apply local_releases.
    + rewrite releases_app, (local_releases pre (delivery_local pre Hpre)). reflexivity.
  - destruct H as [L _]. now apply local_releases.
Qed.

(** Whether the session got as far as [response.body.getReader()]. *)
Definition reader_acquired (request : Timed FetchResult) : bool :=
  (latency request <=? REQUEST_TIMEOUT_MS)%N &&
  match outcome request with
  | Resolved response =>
      ok response && match body response with Some _ => true | None => false end
  | Rejected _ => false
  end.

Lemma releases_spec (request : Timed FetchResult) :
  releases (streamCompletionWithEvents request) =
  if reader_acquired request && negb (never_ends request) then 1 else 0.
Proof.
  unfold streamCompletionWithEvents, never_ends, createTimeoutController, try_block,
    reader_acquired.
  unfold await. cbn [armed deadline andb snd]. rewrite N.add_0_l.
  rewrite N.leb_antisym.
  destruct (REQUEST_TIMEOUT_MS <? latency request)%N; cbn [negb andb].
  { reflexivity. }
  destruct (outcome request) as [reason|response].
  { cbn [snd]. rewrite !releases_app, (local_releases _ (on_catch_local reason)).
    reflexivity. }
  destruct (ok response); cbn [negb andb].
  2:{ destruct (response_json response) as [|errorData]; [reflexivity|].
      rewrite !releases_app, (local_releases _ (on_catch_local _)). reflexivity. }
  destruct (body response) as [b|].
  2:{ rewrite !releases_app, (local_releases _ (on_catch_local _)). reflexivity. }
  pose proof (read_loop_releases (chunks b) (ending b)
                {| deadline := REQUEST_TIMEOUT_MS; armed := true |}
                (latency request) initial) as H.
  destruct (read_loop _ _ initial (chunks b) (ending b)) as [tr ex].
  cbn [fst] in H.
  destruct ex as [st| |error|]; cbn [snd negb]; rewrite !releases_app, H, ?releases_app;
    rewrite ?(local_releases _ (on_stream_end_local _)),
            ?(local_releases _ (on_catch_local _)); reflexivity.
Qed.

(** X4. The reader's lock is released exactly once in every session that
    acquired the reader and ends, however it ends (a [done] or [error]
    event, the end of the stream, a failed read, the timeout).
    [releaseLock] is never called in a session that did not acquire the
    reader, nor in one that never ends, where the [finally] is not reached;
    a session whose response body does not stall ends. *)
Theorem reader_is_released_exactly_once (request : Timed FetchResult) :
  releases (streamCompletionWithEvents request) =
  (if reader_acquired request && negb (never_ends request) then 1 else 0) /\
  (stalls request = false ->
   releases (streamCompletionWithEvents request) =
   if reader_acquired request then 1 else 0).
Proof.
  split; [apply releases_spec|].
  intros Hends. rewrite releases_spec.
  destruct (never_ends request) eqn:Hn; [|now rewrite andb_true_r].
  destruct (never_ends_spec request Hn) as [Hs _]. congruence.
Qed.

Definition networkError : JSError :=
  new_Error "Network error. Please check your connection.".

(** X5. A response that is not [ok], arriving in time: the timer is
    cleared at once and the body is never handed to the read loop, so no
    delta is delivered.  Once [response.json()] has settled, the session
    ends with [onError]: with the message drawn from the response when that
    can be printed (replaced by the network error text when it contains
    [Failed to fetch] or [NetworkError], as for a failed [fetch]), and with
    the [TypeError] of the conversion when it cannot.  While the error body
    does not arrive the session stays there: nothing guards the await any
    more. *)
Theorem http_failure_is_reported (request : Timed FetchResult) (response : Response) :
  outcome request = Resolved response ->
  (latency request <= REQUEST_TIMEOUT_MS)%N ->
  ok response = false ->
  streamCompletionWithEvents request =
  SetTimeout REQUEST_TIMEOUT_MS :: ClearTimeout ::
  if body_stalls response then []
  else
    [ClearTimeout;
     Call (OnError
             (let message := errorMessage response (json response) in
              if printable message then
                if includes "Failed to fetch" (js_String message)
                   || includes "NetworkError" (js_String message)
                then networkError
                else new_Error (js_String message)
              else conversionError))].
Proof.
  intros Hout Htime Hok. cbv zeta.
  unfold streamCompletionWithEvents, createTimeoutController, try_block.
  rewrite await_on_time by (cbn [deadline]; lia).
  rewrite Hout, Hok. cbn [negb]. unfold response_json.
  destruct (body_stalls response); [reflexivity|].
  unfold thrown_for, Error_of.
  destruct (printable (errorMessage response (json response))); [|reflexivity].
  unfold on_catch.
  assert (Hname : forall m, String.eqb (err_name (new_Error m)) "AbortError" = false)
    by reflexivity.
  rewrite Hname. cbn [new_Error err_message app].
  now destruct (includes "Failed to fetch" (js_String (errorMessage response (json response)))
                || includes "NetworkError"
                     (js_String (errorMessage response (json response)))).
Qed.

(** X6. When a read fails before any event ended the session, the session
    ends with [onError], whatever content was already delivered: the deltas
    stay delivered, the reader is released, the timer is cleared, and the
    failure is classified like any other exception. *)
Theorem failed_read_ends_with_onError
        (t0 : N) (response : Response) (b : Body) (reason : Thrown)
        (tr : list Effect) (st : Locals) :
  ok response = true ->
  body response = Some b ->
  outcome (ending b) = StreamFails reason ->
  (t0 + total_latency (chunks b) (ending b) <= REQUEST_TIMEOUT_MS)%N ->
  read_chunks initial (map outcome (chunks b)) = (tr, Continue st) ->
  streamCompletionWithEvents (after t0 (Resolved response)) =
  SetTimeout REQUEST_TIMEOUT_MS :: tr ++ ReleaseLock :: on_catch reason /\
  count is_OnComplete (streamCompletionWithEvents (after t0 (Resolved response))) = 0.
Proof.
  intros Hok Hbody Hend Htime Hrc.
  assert (Heq : streamCompletionWithEvents (after t0 (Resolved response)) =
                SetTimeout REQUEST_TIMEOUT_MS :: tr ++ ReleaseLock :: on_catch reason).
  { unfold streamCompletionWithEvents, createTimeoutController, try_block.
    rewrite await_on_time by (cbn [latency deadline]; lia).
    cbn [outcome latency]. rewrite Hok, Hbody. cbn [negb].
    rewrite read_loop_on_time by (cbn [deadline]; lia || (rewrite Hend; reflexivity)).
    rewrite Hrc. cbn [fst snd]. rewrite Hend.
    cbn [app]. now rewrite <- app_assoc. }
  split; [exact Heq|]. rewrite Heq.
  pose proof (read_chunks_summary (map outcome (chunks b)) initial) as Hs.
  rewrite Hrc in Hs. cbn [fst snd flow_map] in Hs. destruct Hs as [_ [T _]].
  unfold terminals in T.
  change (SetTimeout REQUEST_TIMEOUT_MS :: tr ++ ReleaseLock :: on_catch reason)
    with ([SetTimeout REQUEST_TIMEOUT_MS] ++ tr ++ [ReleaseLock] ++ on_catch reason).
  rewrite !count_app.
  assert (Hc : count is_OnComplete (on_catch reason) = 0).
  { unfold on_catch. destruct reason as [e|s]; [|reflexivity].
    destruct (String.eqb (err_name e) "AbortError"); [reflexivity|].
    now destruct (includes "Failed to fetch" (err_message e)
                  || includes "NetworkError" (err_message e)). }
  rewrite Hc. cbn. lia.
Qed.

(** A list of callbacks that ends with its only terminal one. *)
Definition well_ended (cs : list Callback) : Prop :=
  exists deliveries last,
    cs = deliveries ++ [last] /\
    is_terminal last = true /\
    forallb (fun c => negb (is_terminal c)) deliveries = true.

Lemma no_terminal_calls (tr : list Effect) :
  terminals tr = 0 -> forallb (fun c => negb (is_terminal c)) (calls tr) = true.
Proof.
  unfold terminals, count. induction (calls tr) as [|c cs IH]; [reflexivity|].
  cbn [filter forallb]. destruct c; cbn; intros H; try lia; apply IH; exact H.
Qed.

Lemma well_ended_prepend (tr1 tr2 : list Effect) :
  terminals tr1 = 0 -> well_ended (calls tr2) -> well_ended (calls (tr1 ++ tr2)).
Proof.
  intros T (ds & c & Hcs & Hc & Hds). exists (calls tr1 ++ ds), c.
  rewrite calls_app, Hcs, app_assoc. repeat split; [exact Hc|].
  now rewrite forallb_app, (no_terminal_calls tr1 T), Hds.
Qed.

Lemma well_ended_append (tr1 tr2 : list Effect) :
  well_ended (calls tr1) -> calls tr2 = [] -> well_ended (calls (tr1 ++ tr2)).
Proof. intros H E. now rewrite calls_app, E, app_nil_r. Qed.

Lemma handle_data_well_ended (d : Dispatch) (payload : string) (tr : list Effect) :
  handle_data d payload = (tr, Return) -> well_ended (calls tr).
Proof.
  unfold handle_data.
  repeat match goal with
         | |- context [match ?x with _ => _ end] => destruct x
         end;
    intros H; inversion H; subst; eexists [], _; repeat split.
Qed.

Lemma for_lines_well_ended (lines : list string) (d : Dispatch) (tr : list Effect) :
  for_lines d lines = (tr, Return) -> well_ended (calls tr).
Proof.
  revert d tr. induction lines as [|l lines IH]; intros d tr; [discriminate|].
  cbn [for_lines]. pose proof (handle_line_summary d l) as Hs.
  destruct (handle_line d l) as [tr1 [d1|]] eqn:H1; cbn [and_then fst snd flow_map] in *.
  - destruct (for_lines d1 lines) as [tr2 fl] eqn:H2. intros H. injection H as <- ->.
    destruct Hs as [_ [T _]]. apply well_ended_prepend; [exact T|]. eapply IH. exact H2.
  - intros H. injection H as <-. unfold handle_line in H1.
    destruct (startsWith "event: " l); [discriminate|].
    destruct (startsWith "data: " l); [|destruct (String.eqb l ""); discriminate].
    eapply handle_data_well_ended. exact H1.
Qed.

Lemma handle_chunk_well_ended (st : Locals) (value : list Byte.byte) (tr : list Effect) :
  handle_chunk st value = (tr, Return) -> well_ended (calls tr).
Proof.
  rewrite handle_chunk_eq.
  destruct (for_lines _ _) as [tr1 [d|]] eqn:H1; cbn [and_then]; [discriminate|].
  intros H. injection H as <-. eapply for_lines_well_ended. exact H1.
Qed.

Lemma read_loop_well_ended (pending : list (Timed (list Byte.byte))) (ending : Timed StreamEnd)
      (tm : Timer) (now : N) (st : Locals) (tr : list Effect) :
  read_loop tm now st pending ending = (tr, Returned) -> well_ended (calls tr).
Proof.
  revert tm now st tr. induction pending as [|read rest IH]; intros tm now st tr.
  - cbn [read_loop]. unfold fires.
    destruct (outcome ending); [| |destruct (armed tm); discriminate];
      destruct (await tm now ending); discriminate.
  - cbn [read_loop]. unfold fires.
    destruct (await tm now read) as [[t value]|]; [|discriminate].
    pose proof (handle_chunk_summary st value) as Hs.
    destruct (handle_chunk st value) as [tr1 [st1|]] eqn:H1; cbn [fst snd flow_map] in Hs.
    + destruct (read_loop (timer_after tr1 tm) t st1 rest ending) as [tr2 ex] eqn:H2.
      intros H. injection H as <- ->. destruct Hs as [_ [T _]].
      apply well_ended_prepend; [exact T|]. eapply IH. exact H2.
    + intros H. injection H as <-. eapply handle_chunk_well_ended. exact H1.
Qed.

Lemma on_catch_well_ended (error : Thrown) : well_ended (calls (on_catch error)).
Proof.
  unfold on_catch. destruct error as [e|s].
  - destruct (String.eqb (err_name e) "AbortError");
      [|destruct (includes "Failed to fetch" (err_message e)
                  || includes "NetworkError" (err_message e))];
      eexists [], _; repeat split.
  - eexists [], _. repeat split.
Qed.

Lemma on_stream_end_well_ended (st : Locals) : well_ended (calls (on_stream_end st)).
Proof.
  unfold on_stream_end. destruct (hasReceivedContent (dispatch st));
    eexists [], _; repeat split.
Qed.

Lemma try_block_well_ended (request : Timed FetchResult) :
  let tm := {| deadline := REQUEST_TIMEOUT_MS; armed := true |} in
  snd (try_block tm request) = Completes ->
  well_ended (calls (fst (try_block tm request))).
Proof.
  intros tm. unfold try_block.
  destruct (await tm 0 request) as [[t [reason|response]]|]; try discriminate.
  destruct (ok response); cbn [negb].
  2:{ destruct (response_json response); discriminate. }
  destruct (body response) as [b|]; [|discriminate].
  pose proof (read_loop_spec (chunks b) (ending b) tm t initial) as H.
  destruct (read_loop tm t initial (chunks b) (ending b)) as [tr ex] eqn:Hloop.
  cbn [fst snd] in *.
  destruct ex as [st| |error|]; cbn [loop_post] in H; try discriminate; intros _.
  - destruct H as [_ [T _]].
    apply well_ended_prepend; [exact T|].
    apply well_ended_append; [apply on_stream_end_well_ended | reflexivity].
  - apply well_ended_append; [|reflexivity].
    eapply read_loop_well_ended. exact Hloop.
Qed.

(** X7. In every session that ends, the terminal callback is the last
    callback: nothing is delivered to the page after [onComplete] or
    [onError].  A session that never ends delivers deltas and source lists
    only. *)
Theorem terminal_callback_comes_last (request : Timed FetchResult) :
  (never_ends request = false ->
   exists deliveries last,
     calls (streamCompletionWithEvents request) = deliveries ++ [last] /\
     is_terminal last = true /\
     forallb (fun c => negb (is_terminal c)) deliveries = true) /\
  (never_ends request = true ->
   forallb (fun c => negb (is_terminal c)) (calls (streamCompletionWithEvents request))
   = true).
Proof.
  unfold never_ends, streamCompletionWithEvents, createTimeoutController. cbn [snd].
  pose proof (try_block_spec request) as Hspec.
  pose proof (try_block_well_ended request) as Hend. cbv zeta in Hspec, Hend.
  destruct (try_block {| deadline := REQUEST_TIMEOUT_MS; armed := true |} request)
    as [tr completion].
  cbn [fst snd] in *.
  destruct completion as [|error|]; split; intros Hn; try discriminate.
  - change (well_ended (calls ([SetTimeout REQUEST_TIMEOUT_MS] ++ tr ++ []))).
    apply (well_ended_prepend [_]); [reflexivity|].
    rewrite app_nil_r. now apply Hend.
  - change (well_ended
              (calls ([SetTimeout REQUEST_TIMEOUT_MS] ++ tr ++ on_catch error))).
    apply (well_ended_prepend [_]); [reflexivity|].
    apply well_ended_prepend; [exact Hspec | apply on_catch_well_ended].
  - apply no_terminal_calls. destruct Hspec as [T _].
    rewrite !terminals_app, T. reflexivity.
Qed.

Lemma handle_data_null_error (d : Dispatch) (payload : string) :
  currentEvent d = "error" -> JSON_parse payload = Some JNull ->
  handle_data d payload = ([ClearTimeout], Continue d).
Proof. intros Hev Hp. unfold handle_data. now rewrite Hp, Hev. Qed.

Lemma unarmed_never_fires (pending : list (Timed (list Byte.byte))) (ending : Timed StreamEnd)
      (tm : Timer) (now : N) (st : Locals) :
  armed tm = false ->
  forallb no_timer (fst (read_loop tm now st pending ending)) = true.
Proof.
  intros Ha. pose proof (read_loop_spec pending ending tm now st) as H.
  destruct (read_loop tm now st pending ending) as [tr ex]. cbn [fst snd] in *.
  destruct ex as [st'| |error|]; cbn [loop_post] in H.
  - destruct H as [L _]. now apply local_no_timer.
  - destruct H as [L _]. now apply local_no_timer.
  - destruct H as [_ [L | (_ & Ha' & _)]]; [now apply local_no_timer | congruence].
  - destruct H as [L _]. now apply local_no_timer.
Qed.

(** X8. An [error] event whose payload is [null] clears the timeout and is
    then dropped (reading [message] of [null] throws inside the [try]): the
    session goes on, and from then on no timeout can end it, however long
    the later reads take. *)
Theorem null_error_payload_disarms_the_timeout :
  (forall d payload,
      currentEvent d = "error" -> JSON_parse payload = Some JNull ->
      handle_line d ("data: " +++ payload) = ([ClearTimeout], Continue d)) /\
  (forall t0 response b first rest tr1 st1,
      ok response = true ->
      body response = Some b ->
      chunks b = first :: rest ->
      (t0 + latency first <= REQUEST_TIMEOUT_MS)%N ->
      handle_chunk initial (outcome first) = (tr1, Continue st1) ->
      existsb is_ClearTimeout tr1 = true ->
      existsb is_TimerFires (streamCompletionWithEvents (after t0 (Resolved response)))
      = false).
Proof.
  split.
  - intros d payload Hev Hp. rewrite handle_line_data. now apply handle_data_null_error.
  - intros t0 response b first rest tr1 st1 Hok Hbody Hchunks Htime H1 Hclear.
    unfold streamCompletionWithEvents, createTimeoutController, try_block.
    rewrite await_on_time by (cbn [latency deadline]; lia).
    cbn [outcome latency]. rewrite Hok, Hbody, Hchunks. cbn [negb read_loop].
    rewrite await_on_time by (cbn [deadline]; lia). rewrite H1.
    pose proof (handle_chunk_summary initial (outcome first)) as Hs.
    rewrite H1 in Hs. cbn [fst snd flow_map] in Hs. destruct Hs as [L1 _].
    set (tm' := timer_after tr1 _).
    assert (Ha : armed tm' = false) by (subst tm'; cbn; now rewrite Hclear).
    pose proof (unarmed_never_fires rest (ending b) tm' (0 + t0 + latency first)%N st1 Ha) as Hq.
    destruct (read_loop tm' (0 + t0 + latency first)%N st1 rest (ending b)) as [tr2 ex].
    cbn [fst] in Hq.
    assert (F1 : existsb is_TimerFires tr1 = false)
      by apply (no_timer_spec _ (local_no_timer _ L1)).
    assert (F2 : existsb is_TimerFires tr2 = false) by apply (no_timer_spec _ Hq).
    assert (F3 : forall st, existsb is_TimerFires (on_stream_end st) = false)
      by (intros st; apply (no_timer_spec _ (local_no_timer _ (on_stream_end_local st)))).
    assert (F4 : forall e, existsb is_TimerFires (on_catch e) = false)
      by (intros e; apply (no_timer_spec _ (local_no_timer _ (on_catch_local e)))).
    destruct ex as [st| |error|];
      rewrite ?app_nil_r, !existsb_app, ?F1, ?F2, ?F3, ?F4; reflexivity.
Qed.

End MoreTraces.

Section SourcesFrame.

Context {RT : Runtime}.

Definition is_null (j : JValue number) : bool :=
  match j with JNull => true | _ => false end.

(** [s.k] for an element that is not [null]. *)
Definition field (s : JValue number) (k : string) : Value :=
  match member s k with
  | Some v => v
  | None => undefined
  end.

Definition pick (s : JValue number) : SourceT :=
  Source.mk Value (field s "id") (field s "title") (field s "content")
            (field s "similarity") (field s "type").

Lemma map_sources_spec (items : list (JValue number)) :
  map_sources items = if existsb is_null items then None else Some (map pick items).
Proof.
  induction items as [|s items IH]; [reflexivity|].
  cbn [map_sources existsb map]. rewrite IH.
  destruct s; cbn [to_source member is_null orb]; try reflexivity;
    now destruct (existsb is_null items).
Qed.

(** X9. A decoded [sources] frame is delivered whole or not at all.  When
    the payload is an array without [null] element, [onSources] gets one
    entry per element, in order, each with the five fields [id], [title],
    [content], [similarity] and [type] of the element (those it lacks are
    [undefined]); when an element is [null] or the payload is no array,
    nothing is called.  Either way the session goes on and the frame does
    not count as content. *)
Theorem sources_frame_is_all_or_nothing
        (d : Dispatch) (payload : string) (data : JValue number) :
  currentEvent d = "sources" ->
  JSON_parse payload = Some data ->
  handle_line d ("data: " +++ payload) =
  (match data with
   | JArray items =>
       if existsb is_null items then [] else [Call (OnSources (map pick items))]
   | _ => []
   end, Continue d).
Proof.
  intros Hev Hp. rewrite handle_line_data. unfold handle_data. rewrite Hp, Hev.
  cbn [String.eqb Ascii.eqb Bool.eqb].
  destruct data; try reflexivity.
  rewrite map_sources_spec. now destruct (existsb is_null items).
Qed.

End SourcesFrame.

(** * Further properties of the transcript *)

Section MoreTranscript.

Context {RT : Runtime}.

Definition is_delta (c : Callback) : bool :=
  match c with
  | OnContent _ | OnReasoning _ => true
  | _ => false
  end.

Lemma handleSendMessage_rejects (clock : Clock) (saved : bool) (st : AppState) :
  handleSendMessage clock saved st = None <->
  trim (input st) = "" \/ isLoading st = true.
Proof.
  unfold handleSendMessage.
  destruct (String.eqb_spec (trim (input st)) "") as [He|He];
    destruct (isLoading st); cbn [orb]; split; auto; try discriminate.
  intros [H|H]; [contradiction | discriminate].
Qed.

(** What the callbacks other than the terminal ones keep of the page. *)
Lemma deliver_keeps_page (bot : string) (saved : bool) (c : Callback) (st : AppState) :
  is_terminal c = false ->
  isLoading (deliver bot saved c st) = isLoading st /\
  lastSendRef (deliver bot saved c st) = lastSendRef st /\
  input (deliver bot saved c st) = input st /\
  error (deliver bot saved c st) = error st /\
  saveRequests (deliver bot saved c st) = saveRequests st /\
  hasSavedCurrentChat (deliver bot saved c st) = hasSavedCurrentChat st.
Proof. destruct c; try discriminate; intros _; repeat split. Qed.

Lemma deliver_all_keeps_page (bot : string) (saved : bool) (cs : list Callback)
      (st : AppState) :
  forallb (fun c => negb (is_terminal c)) cs = true ->
  isLoading (deliver_all bot saved cs st) = isLoading st /\
  lastSendRef (deliver_all bot saved cs st) = lastSendRef st /\
  input (deliver_all bot saved cs st) = input st /\
  error (deliver_all bot saved cs st) = error st /\
  saveRequests (deliver_all bot saved cs st) = saveRequests st /\
  hasSavedCurrentChat (deliver_all bot saved cs st) = hasSavedCurrentChat st.
Proof.
  revert st. induction cs as [|c cs IH]; intros st Hcs; [repeat split|].
  cbn [forallb] in Hcs. apply andb_prop in Hcs as [Hc Hcs]. apply negb_true_iff in Hc.
  cbn [deliver_all fold_left]. fold (deliver_all bot saved cs (deliver bot saved c st)).
  destruct (IH (deliver bot saved c st) Hcs) as (-> & -> & -> & -> & -> & ->).
  exact (deliver_keeps_page bot saved c st Hc).
Qed.

Lemma handleSendMessage_state (clock : Clock) (saved : bool) (st : AppState)
      (started : Started) :
  handleSendMessage clock saved st = Some started ->
  isLoading (state started) = true /\
  input (state started) = "" /\
  error (state started) = None /\
  isLoading st = false /\
  trim (input st) <> "".
Proof.
  unfold handleSendMessage.
  destruct (String.eqb_spec (trim (input st)) "") as [He|He]; [discriminate|].
  destruct (isLoading st) eqn:Hl; [discriminate|]. cbn [orb].
  intros H. injection H as <-. cbn.
  destruct (hasSavedCurrentChat st); cbn; repeat split; assumption.
Qed.

(** X10. A send is refused exactly when the input is blank or a session is
    in flight.  An accepted send raises [isLoading]; the flag stays up
    whatever deltas and source lists arrive, and while it is up every
    further send is refused, whatever the input field holds by then.  The
    terminal callbacks lower it. *)
Theorem one_session_at_a_time :
  (forall clock saved st,
      handleSendMessage clock saved st = None <->
      trim (input st) = "" \/ isLoading st = true) /\
  (forall clock saved st started,
      handleSendMessage clock saved st = Some started ->
      isLoading st = false /\ isLoading (state started) = true) /\
  (forall clock saved st started cs text clock' saved',
      handleSendMessage clock saved st = Some started ->
      forallb (fun c => negb (is_terminal c)) cs = true ->
      isLoading (deliver_all (botMsgId started) saved cs (state started)) = true /\
      handleSendMessage clock' saved'
        (set_input text (deliver_all (botMsgId started) saved cs (state started)))
      = None) /\
  (forall bot saved st, isLoading (onComplete bot saved st) = false) /\
  (forall bot err st, isLoading (onError bot err st) = false).
Proof.
  split; [exact handleSendMessage_rejects|]. split; [|split; [|split]].
  - intros clock saved st started Hsend.
    now destruct (handleSendMessage_state clock saved st started Hsend)
      as (? & _ & _ & ? & _).
  - intros clock saved st started cs text clock' saved' Hsend Hcs.
    assert (Hl : isLoading (deliver_all (botMsgId started) saved cs (state started)) = true).
    { destruct (deliver_all_keeps_page (botMsgId started) saved cs (state started) Hcs)
        as (-> & _).
      now destruct (handleSendMessage_state clock saved st started Hsend). }
    split; [exact Hl|].
    apply handleSendMessage_rejects. right. exact Hl.
  - intros bot saved st. unfold onComplete, saveChatToHistory.
    repeat match goal with
           | |- context [if ?b then _ else _] => destruct b
           end; reflexivity.
  - reflexivity.
Qed.

(** A message with its identity only, and a message unless it is the
    target. *)
Definition identity (m : Msg) : string * Message.Role * N :=
  (Message.id m, Message.role m, Message.timestamp m).

Definition unless_target (bot : string) (m : Msg) : option Msg :=
  if String.eqb (Message.id m) bot then None else Some m.

Lemma update_where_frame (bot : string) (f : Msg -> Msg) (msgs : list Msg) :
  (forall m, identity (f m) = identity m) ->
  map identity (update_where bot f msgs) = map identity msgs /\
  map (unless_target bot) (update_where bot f msgs) = map (unless_target bot) msgs.
Proof.
  intros Hf. unfold update_where. rewrite !map_map. split; apply map_ext; intros m.
  - destruct (String.eqb (Message.id m) bot); [apply Hf | reflexivity].
  - unfold unless_target. destruct (String.eqb (Message.id m) bot) eqn:Hm.
    + assert (Hid : Message.id (f m) = Message.id m)
        by (pose proof (Hf m) as H; unfold identity in H; congruence).
      now rewrite Hid, Hm.
    + now rewrite Hm.
Qed.

Lemma callbacks_only_frame (bot : string) (saved : bool) (c : Callback) (st : AppState) :
  map identity (messages (deliver bot saved c st)) = map identity (messages st).
Proof.
  destruct c as [chunk|chunk|srcs| |err]; cbn [deliver];
    try rewrite onComplete_messages;
    apply (update_where_frame bot _ (messages st)); reflexivity.
Qed.

(** X11. No callback of a session adds, removes or reorders messages,
    changes an id, a role or a timestamp, or touches a message whose id is
    not the target's. *)
Theorem callbacks_touch_the_target_only
        (bot : string) (saved : bool) (c : Callback) (st : AppState) :
  map identity (messages (deliver bot saved c st)) = map identity (messages st) /\
  map (unless_target bot) (messages (deliver bot saved c st))
  = map (unless_target bot) (messages st).
Proof.
  destruct c as [chunk|chunk|srcs| |err]; cbn [deliver].
  - apply (update_where_frame bot _ (messages st)). reflexivity.
  - apply (update_where_frame bot _ (messages st)). reflexivity.
  - apply (update_where_frame bot _ (messages st)). reflexivity.
  - rewrite onComplete_messages. apply update_where_frame. reflexivity.
  - apply (update_where_frame bot _ (messages st)). reflexivity.
Qed.

(** The list of sources the last [onSources] of [cs] brought. *)
Fixpoint last_sources (cs : list Callback) (before : option (list SourceT))
  : option (list SourceT) :=
  match cs with
  | [] => before
  | OnSources srcs :: rest => last_sources rest (Some srcs)
  | _ :: rest => last_sources rest before
  end.

Lemma deliver_last_sources (bot : string) (saved : bool) (c : Callback) (st : AppState)
      (pre : list Msg) (m : Msg) :
  messages st = pre ++ [m] ->
  Message.id m = bot ->
  exists pre' m',
    messages (deliver bot saved c st) = pre' ++ [m'] /\
    Message.id m' = bot /\
    Message.sources m' = last_sources [c] (Message.sources m).
Proof.
  intros Hm Hid.
  destruct c as [chunk|chunk|srcs| |err]; cbn [deliver].
  - unfold onContent. cbn [set_finalMessages set_messages messages].
    rewrite Hm, update_where_last by exact Hid. eexists _, _. repeat split. exact Hid.
  - unfold onReasoning. cbn [set_finalMessages set_messages messages].
    rewrite Hm, update_where_last by exact Hid. eexists _, _. repeat split. exact Hid.
  - unfold onSources, updateBotMessage. cbn [set_messages messages].
    rewrite Hm, update_where_last by exact Hid. eexists _, _. repeat split. exact Hid.
  - rewrite onComplete_messages, Hm, update_where_last by exact Hid.
    eexists _, _. repeat split. exact Hid.
  - unfold onError, updateBotMessage. cbn [set_error set_messages set_isLoading messages].
    rewrite Hm, update_where_last by exact Hid. eexists _, _. repeat split. exact Hid.
Qed.

Lemma last_sources_cons (c : Callback) (cs : list Callback) (before : option (list SourceT)) :
  last_sources (c :: cs) before = last_sources cs (last_sources [c] before).
Proof. now destruct c. Qed.

Lemma deliver_all_last_sources (bot : string) (saved : bool) (cs : list Callback)
      (st : AppState) (pre : list Msg) (m : Msg) :
  messages st = pre ++ [m] ->
  Message.id m = bot ->
  exists pre' m',
    messages (deliver_all bot saved cs st) = pre' ++ [m'] /\
    Message.id m' = bot /\
    Message.sources m' = last_sources cs (Message.sources m).
Proof.
  revert st pre m. induction cs as [|c cs IH]; intros st pre m Hm Hid.
  - exists pre, m. repeat split; assumption.
  - destruct (deliver_last_sources bot saved c st pre m Hm Hid)
      as (pre1 & m1 & Hm1 & Hid1 & Hs1).
    destruct (IH (deliver bot saved c st) pre1 m1 Hm1 Hid1)
      as (pre2 & m2 & Hm2 & Hid2 & Hs2).
    exists pre2, m2. cbn [deliver_all fold_left].
    rewrite last_sources_cons, <- Hs1. repeat split; assumption.
Qed.

(** X12. The assistant message's [sources] are replaced, never merged:
    after a send and any callbacks, they are the list the latest [onSources]
    brought, and absent if there was none; deltas and terminal callbacks
    leave them alone. *)
Theorem sources_are_replaced_wholesale
        (clock : Clock) (saved : bool) (st : AppState) (started : Started)
        (cs : list Callback) :
  handleSendMessage clock saved st = Some started ->
  exists m,
    bot_message (deliver_all (botMsgId started) saved cs (state started)) = Some m /\
    Message.sources m = last_sources cs None.
Proof.
  intros Hsend.
  assert (H0 : exists pre m0, messages (state started) = pre ++ [m0] /\
                              Message.id m0 = botMsgId started /\
                              Message.sources m0 = None).
  { revert Hsend. unfold handleSendMessage.
    destruct (String.eqb (trim (input st)) "" || isLoading st); [discriminate|].
    intros H. injection H as <-. cbn.
    destruct (hasSavedCurrentChat st); cbn; eexists _, _; repeat split. }
  destruct H0 as (pre & m0 & Hm0 & Hid0 & Hs0).
  destruct (deliver_all_last_sources (botMsgId started) saved cs (state started) pre m0 Hm0 Hid0)
    as (pre' & m' & Hm' & _ & Hs').
  exists m'. split; [eapply bot_message_last; exact Hm'|]. now rewrite Hs', Hs0.
Qed.

End MoreTranscript.

Section Retry.

Context {RT : Runtime}.

Definition role_and_content (m : Msg) : Message.Role * string :=
  (Message.role m, Message.content m).

Lemma handleSendMessage_request (clock : Clock) (saved : bool) (st : AppState)
      (started : Started) :
  handleSendMessage clock saved st = Some started ->
  map role_and_content (newMessages started) =
  map role_and_content (messages st) ++ [(Message.user, trim (input st))] /\
  lastSendRef (state started) =
  Some {| snap_messages := messages st; snap_input := trim (input st) |}.
Proof.
  unfold handleSendMessage.
  destruct (String.eqb (trim (input st)) "" || isLoading st); [discriminate|].
  intros H. injection H as <-. cbn. rewrite map_app.
  now destruct (hasSavedCurrentChat st).
Qed.

(** X13. After a send that failed, whatever was delivered before the
    failure, a retry puts the transcript and the input back as they were
    before the send (the input trimmed), hides the error, and schedules a
    click on the send button; a send from the page so restored is accepted
    and sends the same conversation as the failed one: the same roles and
    contents, the user's text last. *)
Theorem retry_resends_the_failed_message
        (clock clock' : Clock) (saved saved' : bool) (st : AppState) (started : Started)
        (cs : list Callback) (err : JSError) :
  handleSendMessage clock saved st = Some started ->
  forallb (fun c => negb (is_terminal c)) cs = true ->
  exists restored started',
    handleRetry (onError (botMsgId started) err
                   (deliver_all (botMsgId started) saved cs (state started)))
    = (restored, true) /\
    messages restored = messages st /\
    input restored = trim (input st) /\
    error restored = None /\
    handleSendMessage clock' saved' restored = Some started' /\
    map role_and_content (newMessages started')
    = map role_and_content (newMessages started).
Proof.
  intros Hsend Hcs.
  destruct (handleSendMessage_request clock saved st started Hsend) as [Hreq Hsnap].
  destruct (handleSendMessage_state clock saved st started Hsend)
    as (_ & _ & _ & _ & Hne).
  destruct (deliver_all_keeps_page (botMsgId started) saved cs (state started) Hcs)
    as (_ & Hlast & _).
  set (failed := onError (botMsgId started) err
                   (deliver_all (botMsgId started) saved cs (state started))).
  assert (Hl : lastSendRef failed =
               Some {| snap_messages := messages st; snap_input := trim (input st) |}).
  { subst failed. cbn. now rewrite Hlast, Hsnap. }
  assert (Hretry : exists restored,
             handleRetry failed = (restored, true) /\
             messages restored = messages st /\
             input restored = trim (input st) /\
             error restored = None /\ isLoading restored = false).
  { unfold handleRetry. rewrite Hl. eexists. repeat split. }
  destruct Hretry as (restored & Hr & Hm & Hi & He & Hload).
  destruct (handleSendMessage clock' saved' restored) as [started'|] eqn:Hsend'.
  - exists restored, started'. repeat split; try assumption.
    destruct (handleSendMessage_request clock' saved' restored started' Hsend') as [Hreq' _].
    now rewrite Hreq', Hreq, Hm, Hi, Trim.trim_idempotent.
  - apply handleSendMessage_rejects in Hsend' as [Hblank | Hbusy].
    + rewrite Hi, Trim.trim_idempotent in Hblank. contradiction.
    + congruence.
Qed.

End Retry.

Section Saving.

Context {RT : Runtime}.

Definition is_Renders (e : PageEvent) : bool :=
  match e with Renders => true | _ => false end.

Definition ends_session (e : PageEvent) : bool :=
  match e with
  | Delivers c => is_terminal c
  | Renders => false
  end.

(** The callbacks among the events. *)
Fixpoint callbacks (events : list PageEvent) : list Callback :=
  match events with
  | [] => []
  | Delivers c :: rest => c :: callbacks rest
  | Renders :: rest => callbacks rest
  end.

(** Whether React has run the updater of some delta: a render came after
    the delta. *)
Fixpoint delta_rendered (events : list PageEvent) : bool :=
  match events with
  | [] => false
  | Delivers c :: rest => is_delta c && existsb is_Renders rest || delta_rendered rest
  | Renders :: rest => delta_rendered rest
  end.

(** What shows of the page. *)
Definition same_page (a b : AppState) : Prop :=
  messages a = messages b /\ input a = input b /\ isLoading a = isLoading b /\
  error a = error b /\ lastSendRef a = lastSendRef b.

Lemma render_same_page (st : AppState) : same_page (render st) st.
Proof. unfold render. destruct (queuedFinal st); repeat split. Qed.

Lemma onComplete_page (bot : string) (saved : bool) (st : AppState) :
  input (onComplete bot saved st) = input st /\
  isLoading (onComplete bot saved st) = false /\
  error (onComplete bot saved st) = error st /\
  lastSendRef (onComplete bot saved st) = None.
Proof.
  unfold onComplete, saveChatToHistory.
  repeat match goal with
         | |- context [if ?b then _ else _] => destruct b
         end; repeat split.
Qed.

Lemma deliver_same_page (bot : string) (saved : bool) (c : Callback) (a b : AppState) :
  same_page a b -> same_page (deliver bot saved c a) (deliver bot saved c b).
Proof.
  intros (Hm & Hi & Hl & He & Hr).
  destruct c as [chunk|chunk|srcs| |err]; cbn [deliver].
  - unfold same_page, onContent. cbn. now rewrite Hm.
  - unfold same_page, onReasoning. cbn. now rewrite Hm.
  - unfold same_page, onSources, updateBotMessage. cbn. now rewrite Hm.
  - unfold same_page. rewrite !onComplete_messages, Hm.
    destruct (onComplete_page bot saved a) as (-> & -> & -> & ->).
    destruct (onComplete_page bot saved b) as (-> & -> & -> & ->).
    repeat split; assumption.
  - unfold same_page, onError, updateBotMessage. cbn. now rewrite Hm.
Qed.

Lemma run_same_page (bot : string) (saved : bool) (events : list PageEvent)
      (a b : AppState) :
  same_page a b ->
  same_page (run bot saved events a) (deliver_all bot saved (callbacks events) b).
Proof.
  revert a b. induction events as [|e events IH]; intros a b Hab; [exact Hab|].
  destruct e as [c|]; cbn [run deliver_all fold_left callbacks page_step].
  - apply IH. now apply deliver_same_page.
  - apply IH. destruct (render_same_page a) as (H1 & H2 & H3 & H4 & H5).
    destruct Hab as (G1 & G2 & G3 & G4 & G5).
    unfold same_page. repeat split; congruence.
Qed.

(** X21. When React runs the updaters does not show on the page: whatever
    renders come between the callbacks of a session, the transcript, the
    input, the loading flag, the error notice and the retry snapshot are
    those the callbacks alone lead to.  Only what [onComplete] saves
    depends on it. *)
Theorem renders_do_not_show
        (bot : string) (saved : bool) (events : list PageEvent) (st : AppState) :
  messages (run bot saved events st)
  = messages (deliver_all bot saved (callbacks events) st) /\
  input (run bot saved events st)
  = input (deliver_all bot saved (callbacks events) st) /\
  isLoading (run bot saved events st)
  = isLoading (deliver_all bot saved (callbacks events) st) /\
  error (run bot saved events st)
  = error (deliver_all bot saved (callbacks events) st) /\
  lastSendRef (run bot saved events st)
  = lastSendRef (deliver_all bot saved (callbacks events) st).
Proof. apply run_same_page. repeat split. Qed.

Lemma page_step_saves (bot : string) (saved : bool) (e : PageEvent) (st : AppState) :
  ends_session e = false ->
  saveRequests (page_step bot saved e st) = saveRequests st.
Proof.
  destruct e as [c|]; cbn [ends_session page_step].
  - intros Hc. now destruct (deliver_keeps_page bot saved c st Hc) as (_ & _ & _ & _ & ? & _).
  - intros _. unfold render. now destruct (queuedFinal st).
Qed.

(** The local [finalMessages] is empty for as long as React has run the
    updater of no delta. *)
Lemma run_finalMessages (bot : string) (saved : bool) (events : list PageEvent)
      (st : AppState) :
  finalMessages st = [] ->
  queuedFinal st = None \/ existsb is_Renders events = false ->
  existsb ends_session events = false ->
  delta_rendered events = false ->
  finalMessages (run bot saved events st) = [] /\
  saveRequests (run bot saved events st) = saveRequests st.
Proof.
  revert st. induction events as [|e events IH]; intros st Hf Hq Hends Hnone;
    [now split|].
  cbn [existsb] in Hends. apply orb_false_iff in Hends as [He Hends].
  cbn [run fold_left]. fold (run bot saved events (page_step bot saved e st)).
  rewrite <- (page_step_saves bot saved e st He).
  destruct e as [c|]; cbn [delta_rendered existsb is_Renders orb] in *.
  - apply orb_false_iff in Hnone as [Hc Hnone].
    apply IH; [| |exact Hends|exact Hnone].
    + destruct c; try discriminate; cbn [page_step deliver]; exact Hf.
    + destruct c as [chunk|chunk|srcs| |err]; try discriminate;
        cbn [is_delta andb] in Hc; cbn [page_step deliver];
        [now right | now right | exact Hq].
  - destruct Hq as [Hq|Hq]; [|discriminate].
    cbn [page_step]. unfold render. rewrite Hq.
    apply IH; [exact Hf | now left | exact Hends | exact Hnone].
Qed.

(** X14. [onComplete] saves what the updaters React has run recorded, and
    nothing else: when no render came after a delta, in particular when
    the session delivered no content or reasoning delta at all, it issues
    no save request. *)
Theorem completion_without_deltas_saves_nothing
        (clock : Clock) (saved : bool) (st : AppState) (started : Started)
        (events : list PageEvent) :
  handleSendMessage clock saved st = Some started ->
  existsb ends_session events = false ->
  delta_rendered events = false ->
  saveRequests (onComplete (botMsgId started) saved
                  (run (botMsgId started) saved events (state started)))
  = saveRequests (state started).
Proof.
  intros Hsend Hends Hnone.
  assert (Hempty : finalMessages (state started) = [] /\
                   queuedFinal (state started) = None).
  { revert Hsend. unfold handleSendMessage.
    destruct (String.eqb (trim (input st)) "" || isLoading st); [discriminate|].
    intros H. now injection H as <-. }
  destruct Hempty as [Hempty Hqueue].
  destruct (run_finalMessages (botMsgId started) saved events (state started)
              Hempty (or_introl Hqueue) Hends Hnone) as [Hfinal Hsaves].
  unfold onComplete.
  cbn [finalMessages set_lastSendRef updateBotMessage set_messages set_isLoading].
  rewrite Hfinal. cbn. exact Hsaves.
Qed.

End Saving.

(** * The progress indicator: components/ThinkingIndicator.tsx *)

Section Indicator.

Context {RT : Runtime}.

Definition is_in_progress (s : SearchStep.t) : bool :=
  match SearchStep.status s with
  | SearchStep.in_progress => true
  | _ => false
  end.

(** [steps.find(s => s.status === 'in-progress') || steps[steps.length - 1]] *)
Definition activeStep (steps : list SearchStep.t) : option SearchStep.t :=
  match find is_in_progress steps with
  | Some s => Some s
  | None =>
      match rev steps with
      | s :: _ => Some s
      | [] => None
      end
  end.

(** The text the indicator shows: [activeStep?.label || 'Working...']. *)
Definition ThinkingIndicator (steps : list SearchStep.t) : string :=
  match activeStep steps with
  | Some s => if String.eqb (SearchStep.label s) "" then "Working..." else SearchStep.label s
  | None => "Working..."
  end.

(** [msg.searchSteps && msg.isThinking && <ThinkingIndicator .../>] in the
    list of messages of [App]: the text shown above a message, if any. *)
Definition indicator (m : Msg) : option string :=
  match Message.searchSteps m, Message.isThinking m with
  | Some steps, Some true => Some (ThinkingIndicator steps)
  | _, _ => None
  end.

(** What a callback does to the target message. *)
Definition apply_callback (c : Callback) (m : Msg) : Msg :=
  match c with
  | OnContent chunk =>
      with_isThinking false (with_content (Message.content m +++ js_String chunk) m)
  | OnReasoning chunk =>
      with_reasoning (or_empty (Message.reasoning m) +++ js_String chunk) m
  | OnSources srcs =>
      with_sources srcs [SearchStep.mk "1" "Analyzing documents..." SearchStep.completed] m
  | OnComplete => with_isThinking false m
  | OnError err =>
      with_isThinking false
        (with_content ("**Error:** " +++
                       (if String.eqb (err_message err) "" then "Unknown error occurred"
                        else err_message err)) m)
  end.

Lemma deliver_messages (bot : string) (saved : bool) (c : Callback) (st : AppState) :
  messages (deliver bot saved c st) = update_where bot (apply_callback c) (messages st).
Proof.
  destruct c as [chunk|chunk|srcs| |err]; cbn [deliver]; try reflexivity.
  apply onComplete_messages.
Qed.

Lemma apply_callback_id (c : Callback) (m : Msg) :
  Message.id (apply_callback c m) = Message.id m.
Proof. now destruct c. Qed.

Lemma deliver_all_target (bot : string) (saved : bool) (cs : list Callback) (st : AppState)
      (pre : list Msg) (m : Msg) :
  messages st = pre ++ [m] ->
  Message.id m = bot ->
  exists pre',
    messages (deliver_all bot saved cs st)
    = pre' ++ [fold_left (fun acc c => apply_callback c acc) cs m].
Proof.
  revert st pre m. induction cs as [|c cs IH]; intros st pre m Hm Hid.
  - now exists pre.
  - cbn [deliver_all fold_left]. fold (deliver_all bot saved cs (deliver bot saved c st)).
    apply (IH (deliver bot saved c st) (update_where bot (apply_callback c) pre)).
    + now rewrite deliver_messages, Hm, update_where_last.
    + now rewrite apply_callback_id.
Qed.

Definition hides_indicator (c : Callback) : bool :=
  match c with
  | OnContent _ | OnComplete | OnError _ => true
  | _ => false
  end.

Definition is_OnSources (c : Callback) : bool :=
  match c with OnSources _ => true | _ => false end.

Definition processing : list SearchStep.t :=
  [SearchStep.mk "1" "Processing..." SearchStep.in_progress].

Definition analyzed : list SearchStep.t :=
  [SearchStep.mk "1" "Analyzing documents..." SearchStep.completed].

Lemma fold_indicator (cs : list Callback) (m : Msg) (hidden sourced : bool) :
  Message.isThinking m = Some (negb hidden) ->
  Message.searchSteps m = Some (if sourced then analyzed else processing) ->
  let m' := fold_left (fun acc c => apply_callback c acc) cs m in
  Message.isThinking m' = Some (negb (hidden || existsb hides_indicator cs)) /\
  Message.searchSteps m' =
  Some (if sourced || existsb is_OnSources cs then analyzed else processing).
Proof.
  revert m hidden sourced. induction cs as [|c cs IH]; intros m hidden sourced Ht Hs.
  - cbn. now rewrite !orb_false_r.
  - cbn [fold_left existsb].
    destruct c as [chunk|chunk|srcs| |err]; cbn [hides_indicator is_OnSources].
    + destruct (IH (apply_callback (OnContent chunk) m) true sourced eq_refl Hs) as [H1 H2].
      cbn zeta. rewrite H1, H2. cbn [orb]. now rewrite orb_true_r.
    + destruct (IH (apply_callback (OnReasoning chunk) m) hidden sourced Ht Hs) as [H1 H2].
      cbn zeta. now rewrite H1, H2.
    + destruct (IH (apply_callback (OnSources srcs) m) hidden true Ht eq_refl) as [H1 H2].
      cbn zeta. rewrite H1, H2. cbn [orb]. now rewrite orb_true_r.
    + destruct (IH (apply_callback OnComplete m) true sourced eq_refl Hs) as [H1 H2].
      cbn zeta. rewrite H1, H2. cbn [orb]. now rewrite orb_true_r.
    + destruct (IH (apply_callback (OnError err) m) true sourced eq_refl Hs) as [H1 H2].
      cbn zeta. rewrite H1, H2. cbn [orb]. now rewrite orb_true_r.
Qed.

(** X15. The progress indicator above the assistant message is shown from
    the send until the first content delta or the terminal callback,
    whichever comes first, and never again; while shown it reads
    [Processing...] until a list of sources arrives and
    [Analyzing documents...] from then on.  Reasoning deltas neither hide it
    nor change its text. *)
Theorem indicator_follows_the_session
        (clock : Clock) (saved : bool) (st : AppState) (started : Started)
        (cs : list Callback) :
  handleSendMessage clock saved st = Some started ->
  exists m,
    bot_message (deliver_all (botMsgId started) saved cs (state started)) = Some m /\
    indicator m =
    if existsb hides_indicator cs then None
    else Some (if existsb is_OnSources cs then "Analyzing documents..." else "Processing...").
Proof.
  intros Hsend.
  assert (H0 : exists pre m0, messages (state started) = pre ++ [m0] /\
                              Message.id m0 = botMsgId started /\
                              Message.isThinking m0 = Some true /\
                              Message.searchSteps m0 = Some processing).
  { revert Hsend. unfold handleSendMessage.
    destruct (String.eqb (trim (input st)) "" || isLoading st); [discriminate|].
    intros H. injection H as <-. cbn.
    destruct (hasSavedCurrentChat st); cbn; eexists _, _; repeat split. }
  destruct H0 as (pre & m0 & Hm0 & Hid0 & Ht0 & Hs0).
  destruct (deliver_all_target (botMsgId started) saved cs (state started) pre m0 Hm0 Hid0)
    as [pre' Hm'].
  eexists. split; [eapply bot_message_last; exact Hm'|].
  destruct (fold_indicator cs m0 false false Ht0 Hs0) as [H1 H2].
  unfold indicator. cbn zeta in H1, H2. rewrite H1, H2. cbn [orb].
  destruct (existsb hides_indicator cs); [reflexivity|].
  now destruct (existsb is_OnSources cs).
Qed.

End Indicator.

(** * The HTTP client and the chat service: api/client.ts, api/chatApi.ts

    A request is kept as the data handed to [JSON.stringify], the network as
    the replies still to come and the requests sent so far.  [fetch] rejects
    with an [Error] object, as the Fetch standard has it.  Here every
    awaited operation settles: the client sets no timer, and a call whose
    reply never comes never returns. *)

Module MessageCreate.
Record t : Type := mk { role : Message.Role; content : string }.
End MessageCreate.

Inductive Method : Type := GET | POST | PUT | DELETE.

(** The bodies the services send. *)
Inductive Payload : Type :=
  | ChatUpdateRequest (title : option string) (messages : list MessageCreate.t)
  | ChatCreateRequest (id : option string) (title : option string)
                      (messages : option (list MessageCreate.t))
  | IngestRequest (name content : string).

Record Request : Type := {
  req_method : Method;
  req_url : string;
  req_body : option Payload
  }.

Module Client.

Section Client.

Context {RT : Runtime}.

(** [import.meta.env.VITE_API_URL || ''] *)
Variable API_BASE_URL : string.

(** [new ApiError(message, status, detail)]; a [detail] that is a string is
    kept as a JSON string. *)
Record ApiError : Type := {
  api_message : string;
  api_status : N;
  api_detail : JValue number
  }.

(** How a call of the client can fail. *)
Inductive Failure : Type :=
  | ApiFailure (e : ApiError)     (* handleResponse threw an ApiError *)
  | ConversionFailure             (* new ApiError(detail, ...) threw a TypeError *)
  | FetchFailure (e : JSError)    (* fetch rejected *)
  | BodyFailure.                  (* response.json() of an ok response rejected *)

Inductive Reply : Type :=
  | NoReply (e : JSError)
  | Answer (response : Response).

Record Net : Type := {
  replies : list Reply;
  requested : list Request
  }.

(** [fetch(url, init)]; a network with no reply left refuses the
    connection. *)
Definition fetch (req : Request) (net : Net) : Reply * Net :=
  match replies net with
  | r :: rest => (r, {| replies := rest; requested := requested net ++ [req] |})
  | [] => (NoReply {| err_name := "TypeError"; err_message := "Failed to fetch" |},
           {| replies := []; requested := requested net ++ [req] |})
  end.

(** [detail] when [new ApiError(detail, response.status, detail)] is
    reached: whatever value the server put there. *)
Definition errorDetail (response : Response) : JValue number :=
  match json response with
  | None => JString (statusText response)
  | Some errorData =>
      match member errorData "detail", member errorData "message" with
      | Some d, Some m => or_else d (or_else m (JString "Request failed"))
      | _, _ => JString (statusText response)
      end
  end.

(** [super(message)] converts the detail to a string, and throws when it
    cannot be printed. *)
Definition handleResponse (response : Response) : Failure + Value :=
  if negb (ok response) then
    let detail := errorDetail response in
    if printable detail then
      inl (ApiFailure {| api_message := js_String detail;
                         api_status := status response;
                         api_detail := detail |})
    else inl ConversionFailure
  else if (status response =? 204)%N then inr undefined
  else
    match json response with
    | Some v => inr (Some v)
    | None => inl BodyFailure
    end.

Definition request (method : Method) (endpoint : string) (data : option Payload)
           (net : Net) : (Failure + Value) * Net :=
  let (reply, net') :=
    fetch {| req_method := method; req_url := API_BASE_URL +++ endpoint;
             req_body := data |} net in
  (match reply with
   | NoReply e => inl (FetchFailure e)
   | Answer response => handleResponse response
   end, net').


Definition post (endpoint : string) (data : option Payload) : Net -> (Failure + Value) * Net :=
  request POST endpoint data.

Definition put (endpoint : string) (data : Payload) : Net -> (Failure + Value) * Net :=
  request PUT endpoint (Some data).

Definition del (endpoint : string) : Net -> (Failure + Value) * Net :=
  request DELETE endpoint None.

End Client.

End Client.

(** ** chatApi.ts *)

Module ChatApi.

Import Client.

Section ChatApi.

Context {RT : Runtime}.

Variable API_BASE_URL : string.



Definition createChat (data : option Payload) : Net -> (Failure + Value) * Net :=
  post API_BASE_URL "/api/chats"
       (Some (match data with
              | Some d => d
              | None => ChatCreateRequest None None None
              end)).

(** [error.status === 404]; only an [ApiError] has a status. *)
Definition status_is_404 (error : Failure) : bool :=
  match error with
  | ApiFailure e => (api_status e =? 404)%N
  | _ => false
  end.

Definition to_MessageCreate (m : Msg) : MessageCreate.t :=
  MessageCreate.mk (Message.role m) (Message.content m).

Definition saveChat (id : string) (messages : list Msg) (title : option string)
           (net : Net) : (Failure + Value) * Net :=
  let updateMessages := map to_MessageCreate messages in
  let updateData :=
    ChatUpdateRequest
      (match title with
       | Some t => if String.eqb t "" then None else Some t
       | None => None
       end)
      updateMessages in
  match put API_BASE_URL ("/api/chats/" +++ id) updateData net with
  | (inr v, net') => (inr v, net')
  | (inl error, net') =>
      if status_is_404 error then
        createChat (Some (ChatCreateRequest (Some id) title (Some updateMessages))) net'
      else (inl error, net')
  end.

Definition deleteChat (id : string) : Net -> (Failure + Value) * Net :=
  del API_BASE_URL ("/api/chats/" +++ id).

End ChatApi.

End ChatApi.

(** * Properties of the client and the chat service *)

Section ClientFacts.

Import Client.

Context {RT : Runtime}.

Variable API_BASE_URL : string.











End ClientFacts.

(** * Chats: the rest of App.tsx

    [resetUIState], [handleNewChat] and [handleLoadChat], on the page state
    the transcript model left out.  As before, the outcome of a network call
    is an argument; what [refreshHistory] fetches only fills the sidebar. *)

Module ChatSessionFull.
Record t {M : Type} : Type := mk {
  id : string;
  title : string;
  updatedAt : N;
  preview : string;
  messages : list M
  }.
Arguments t M : clear implicits.
End ChatSessionFull.

Section Chats.

Context {RT : Runtime}.

Record Page : Type := {
  app : AppState;
  sessionId : string;
  deleteConfirmId : option string;
  isSidebarOpen : bool
  }.

Definition on_app (f : AppState -> AppState) (p : Page) : Page :=
  {| app := f (app p); sessionId := sessionId p;
     deleteConfirmId := deleteConfirmId p; isSidebarOpen := isSidebarOpen p |}.

Definition set_hasSavedCurrentChat (v : bool) (st : AppState) : AppState :=
  {| messages := messages st; input := input st; isLoading := isLoading st;
     error := error st; hasSavedCurrentChat := v;
     lastSendRef := lastSendRef st; finalMessages := finalMessages st;
     queuedFinal := queuedFinal st;
     saveRequests := saveRequests st |}.

(** [await saveChat(sessionId, messages)] where the result is not used. *)
Definition request_save (msgs : list Msg) (st : AppState) : AppState :=
  {| messages := messages st; input := input st; isLoading := isLoading st;
     error := error st; hasSavedCurrentChat := hasSavedCurrentChat st;
     lastSendRef := lastSendRef st; finalMessages := finalMessages st;
     queuedFinal := queuedFinal st;
     saveRequests := saveRequests st ++ [msgs] |}.

(** [resetUIState()], with the reading of [Date.now()]. *)
Definition resetUIState (now : N) (p : Page) : Page :=
  {| app := set_error None
              (set_hasSavedCurrentChat false
                 (set_input "" (set_messages (fun _ => []) (app p))));
     sessionId := of_N now;
     deleteConfirmId := None;
     isSidebarOpen := false |}.

(** The [if (messages.length >= 2 && hasSavedCurrentChat)] both handlers
    start with. *)
Definition save_current (p : Page) : Page :=
  if Nat.leb 2 (length (messages (app p))) && hasSavedCurrentChat (app p)
  then on_app (request_save (messages (app p))) p
  else p.

Definition handleNewChat (now : N) (p : Page) : Page :=
  resetUIState now (save_current p).





(** X19. Starting a new chat empties the transcript and the input, hides the
    error and takes a fresh session id, and it saves the old chat first
    exactly when that chat has at least two messages and was saved before.
    It keeps the retry snapshot: [handleRetry], which the next error notice
    offers, then brings back the messages and the input of the last send of
    the old chat. *)
Theorem new_chat_keeps_the_retry_snapshot (now : N) (p : Page) :
  let p' := handleNewChat now p in
  messages (app p') = [] /\
  input (app p') = "" /\
  error (app p') = None /\
  sessionId p' = of_N now /\
  saveRequests (app p') =
    saveRequests (app p) ++
    (if Nat.leb 2 (length (messages (app p))) && hasSavedCurrentChat (app p)
     then [messages (app p)] else []) /\
  lastSendRef (app p') = lastSendRef (app p) /\
  (forall snap, lastSendRef (app p) = Some snap ->
     exists restored, handleRetry (app p') = (restored, true) /\
                      messages restored = snap_messages snap /\
                      input restored = snap_input snap).
Proof.
  cbv zeta. unfold handleNewChat, save_current.
  destruct (Nat.leb 2 (length (messages (app p))) && hasSavedCurrentChat (app p));
    cbn; rewrite ?app_nil_r; repeat split;
    intros snap Hsnap; unfold handleRetry; cbn; rewrite Hsnap; eexists; repeat split.
Qed.



End Chats.

(** * Scenarios on the reference runtime *)

Import Reference.

Definition clock0 : Clock :=
  {| now_userId := 1700000000000; now_userTimestamp := 1700000000000;
   now_botId := 1700000000001; now_botTimestamp := 1700000000001 |}.

(** The page with [  hello ] typed in. *)
Definition typed : AppState := set_input "  hello " emptyState.

(** The page after that message was sent. *)
Definition sent : Started :=
  match handleSendMessage clock0 true typed with
  | Some started => started
  | None => {| botMsgId := ""; newMessages := []; state := typed |}
  end.

(** A session on a stream delivered at once, and the page after it. *)
Definition page_after (parts : list string) : AppState :=
  deliver_all (botMsgId sent) true
            (calls (streamCompletionWithEvents (stream parts))) (state sent).

Definition shown (st : AppState) : option string :=
  option_map (fun m => Message.content m) (bot_message st).

(** An [ok] response whose body delivers [reads] and then ends after
  [last] ms. *)
Definition timed_stream (t0 : N) (reads : list (N * string)) (last : N) : Timed FetchResult :=
  after t0 (Resolved {| ok := true; status := 200; statusText := "OK"; json := None;
                      body := Some {| chunks := map (fun r => after (fst r) (bytes (snd r))) reads;
                                      ending := after last EndOfStream |} |}).

(** The locals of the read loop between two lines. *)
Definition between_lines (event : string) (received : bool) : Locals :=
  {| decoder := Utf8.idle true : @TextDecoder runtime; buffer := "";
     dispatch := {| currentEvent := event; hasReceivedContent := received |} |}.

(** The scenarios of the specification. *)

Example scenario_content_then_done :
  calls (streamCompletionWithEvents
         (stream ["event: content|data: {'text':'Hi'}||event: done|data: {}||"]))
  = [OnContent (JString "Hi"); OnComplete] /\
  shown (page_after ["event: content|data: {'text':'Hi'}||event: done|data: {}||"])
  = Some "Hi".
Proof. split; reflexivity. Qed.

Example scenario_error_before_content :
  shown (page_after ["event: error|data: {'message':'rate limited'}||"])
  = Some "**Error:** rate limited" /\
  lastSendRef (page_after ["event: error|data: {'message':'rate limited'}||"])
  = Some {| snap_messages := []; snap_input := "hello" |}.
Proof. split; reflexivity. Qed.

Example scenario_closed_mid_line :
  calls (streamCompletionWithEvents
         (stream ["event: content|data: {'text':'Hi'}||event: content|data: {'te"]))
  = [OnContent (JString "Hi"); OnComplete].
Proof. reflexivity. Qed.

(** A malformed frame between two good ones. *)
Example scenario_malformed_frame_between :
  calls (streamCompletionWithEvents
         (stream ["event: content|data: {'text':'a'}||event: content|data: {'text': b}||";
                  "event: content|data: {'text':'c'}||event: done|data: {}||"]))
  = [OnContent (JString "a"); OnContent (JString "c"); OnComplete].
Proof. reflexivity. Qed.

(** Reasoning alone does not count as content when the stream closes. *)
Example scenario_reasoning_only_then_close :
  calls (streamCompletionWithEvents (stream ["event: reasoning|data: {'text':'hmm'}||"]))
  = [OnReasoning (JString "hmm"); OnError closedError].
Proof. reflexivity. Qed.

(** Interleaved deltas, from the wire to the page. *)
Example scenario_interleaved_deltas :
  option_map (fun m => (Message.content m, Message.reasoning m))
  (bot_message
     (page_after ["event: reasoning|data: {'text':'let me '}||event: content|data: {'text':'Hel'}||";
                  "event: reasoning|data: {'text':'think'}||event: content|data: {'text':'lo'}||";
                  "event: done|data: {}||"]))
  = Some ("Hello", Some "let me think").
Proof. reflexivity. Qed.

(** A [done] line whose payload is not JSON is a malformed frame like any
  other: it is skipped, and here the stream then closes with nothing
  delivered. *)
Example done_with_malformed_payload_is_skipped :
  calls (streamCompletionWithEvents (stream ["event: done|data: [DONE]||"]))
  = [OnError closedError].
Proof. reflexivity. Qed.

(** An [error] event with payload [null] clears the timeout and is then
  dropped by the [catch]: the session goes on without a timer. *)
Example error_with_null_payload_clears_the_timer :
  streamCompletionWithEvents
  (timed_stream 0 [(10, "event: error|data: null||");
                   (40000, "event: content|data: {'text':'late'}||")] 0)%N
  = [SetTimeout 30000; ClearTimeout; Call (OnContent (JString "late"));
   ClearTimeout; Call OnComplete; ReleaseLock].
Proof. reflexivity. Qed.

(** Chunks 20 s apart: no gap reaches 30 s, and the timer fires 30 s after
  the start all the same. *)
Example timer_is_not_reset_by_chunks :
  streamCompletionWithEvents
  (timed_stream 100 [(20000, "event: content|data: {'text':'a'}||");
                     (20000, "event: content|data: {'text':'b'}||")] 10)%N
  = [SetTimeout 30000; Call (OnContent (JString "a")); TimerFires 30000;
   ReleaseLock; ClearTimeout; Call (OnError timeoutError)].
Proof. reflexivity. Qed.

(** ** C1: the claim fails on the code *)

(** With [Hi] already streamed into the assistant message, [onError]
  leaves the annotation in its place: the partial content is gone. *)
Lemma onError_discards_partial_content :
  shown (deliver_all (botMsgId sent) true [OnContent (JString "Hi")] (state sent))
  = Some "Hi" /\
  shown (deliver_all (botMsgId sent) true
                   [OnContent (JString "Hi"); OnError (new_Error "boom")] (state sent))
  = Some "**Error:** boom" /\
  includes "Hi" "**Error:** boom" = false.
Proof. repeat split; reflexivity. Qed.

(** ** C3: the claim fails on the code *)


(** An [ok] stream that sends an [error] event with payload [null] and
    then goes silent. *)
Definition silent_stream : Response :=
  {| ok := true; status := 200; statusText := "OK"; json := None;
     body := Some {| chunks := [after 10%N (bytes "event: error|data: null||")];
                     ending := after 0 StreamStalls |} |}.


(** ** The theorems at concrete inputs *)


Lemma chunk_boundaries_witness :
  concat [bytes "event: con"; bytes "tent|data: {'text':'Hi'}||event: done|da";
        bytes "ta: {}||"]
  = concat [bytes "event: content|data: {'text':'Hi'}||event: done|data: {}||"] /\
  read_chunks initial
  [bytes "event: con"; bytes "tent|data: {'text':'Hi'}||event: done|da"; bytes "ta: {}||"]
  = read_chunks initial
    [bytes "event: content|data: {'text':'Hi'}||event: done|data: {}||"].
Proof.
  split; [reflexivity|].
  apply chunk_boundaries_carry_no_meaning. reflexivity.
Defined.

Lemma malformed_data_line_witness :
  JSON_parse "{oops" = None /\
  for_lines (dispatch initial)
          (["event: content"] ++ ("data: " +++ "{oops") :: [wire "data: {'text':'Hi'}"])
  = for_lines (dispatch initial) (["event: content"] ++ [wire "data: {'text':'Hi'}"]).
Proof.
  split; [reflexivity|].
  refine (proj2 (malformed_data_line_is_skipped "{oops" _) _ _ _). reflexivity.
Defined.

Lemma done_frame_witness :
  lines_rest (buffer initial +++
            snd (decode (decoder initial)
                        (bytes "event: done|data: {'status':'ok'}||event: content|data: {'text':'late'}|")))
  = (["event: done"] ++ ("data: " +++ wire "{'status':'ok'}")
     :: [""; "event: content"; wire "data: {'text':'late'}"], "") /\
  for_lines (dispatch initial) ["event: done"]
  = ([], Continue {| currentEvent := "done"; hasReceivedContent := false |}) /\
  JSON_parse (wire "{'status':'ok'}") = Some (JObject [("status", JString "ok")]) /\
  read_chunks initial
  [bytes "event: done|data: {'status':'ok'}||event: content|data: {'text':'late'}|";
   bytes "event: content|data: {'text':'later'}||"]
  = ([] ++ [ClearTimeout; Call OnComplete], Return).
Proof.
  split; [reflexivity|].
  split; [reflexivity|].
  split; [reflexivity|].
  apply (done_frame_completes_the_session
         initial _ _ ["event: done"]
         [""; "event: content"; wire "data: {'text':'late'}"] ""
         [] {| currentEvent := "done"; hasReceivedContent := false |}
         (wire "{'status':'ok'}") (JObject [("status", JString "ok")]));
  reflexivity.
Defined.

Definition partial_body : Body :=
  {| chunks := [after 800%N (bytes "event: content|data: {'text':'partial'}|")];
   ending := after 5000%N EndOfStream |}.

Definition partial_response : Response :=
  {| ok := true; status := 200; statusText := "OK"; json := None;
   body := Some partial_body |}.

Lemma silent_close_witness :
  (120 + total_latency (chunks partial_body) (ending partial_body) <= REQUEST_TIMEOUT_MS)%N /\
  streamCompletionWithEvents (after 120%N (Resolved partial_response))
  = SetTimeout REQUEST_TIMEOUT_MS :: [Call (OnContent (JString "partial"))] ++
    [ClearTimeout;
     Call (if Nat.ltb 0 (count is_OnContent [Call (OnContent (JString "partial"))])
           then OnComplete else OnError closedError);
     ReleaseLock].
Proof.
  split; [now apply N.leb_le|].
  apply (silent_close_resolves_by_content
         120%N partial_response partial_body [Call (OnContent (JString "partial"))]
         (between_lines "content" true));
  try reflexivity.
  now apply N.leb_le.
Defined.


Definition slow_stream : Timed FetchResult :=
  timed_stream 100 [(20000, "event: content|data: {'text':'a'}||");
                  (20000, "event: content|data: {'text':'b'}||")]%N 10.

Lemma timeout_witness :
  (REQUEST_TIMEOUT_MS < time_needed slow_stream)%N /\
  existsb is_TimerFires (streamCompletionWithEvents slow_stream) = true.
Proof.
  split; [reflexivity|].
  refine (proj1 (proj2 (proj2 (proj2 (proj2
            (timeout_is_fixed_from_session_start slow_stream)))))
          _ _ [Call (OnContent (JString "a")); Call (OnContent (JString "b"))]
          (between_lines "" true)
          _ _ _ _ _ _);
  reflexivity.
Defined.

Lemma retry_snapshot_witness :
  lastSendRef (state sent) = Some {| snap_messages := []; snap_input := "hello" |} /\
  lastSendRef (onError (botMsgId sent) (new_Error "boom") (state sent))
  = lastSendRef (state sent) /\
  handleRetry (onComplete (botMsgId sent) true (state sent))
  = (onComplete (botMsgId sent) true (state sent), false).
Proof.
  pose proof retry_snapshot_lifecycle as (_ & Herror & _ & Hretry & Hsend).
  split; [apply (Hsend clock0 true typed sent); reflexivity|].
  split; [apply Herror | apply Hretry].
Defined.

Lemma event_name_witness :
  for_lines (dispatch initial)
          ["event: content"; "data: " +++ wire "{'text':'a'}"; "data: " +++ wire "{'text':'b'}"]
  = ([Call (OnContent (JString "a")); Call (OnContent (JString "b"))],
   Continue {| currentEvent := "content"; hasReceivedContent := true |}) /\
  handle_line (dispatch initial) ("data: " +++ wire "{'text':'a'}")
  = ([], Continue (dispatch initial)).
Proof.
  pose proof event_name_persists_across_data_lines as (_ & Htwo & _ & _ & Hnone).
  split.
  - apply (Htwo (dispatch initial) (wire "{'text':'a'}") (wire "{'text':'b'}")
              (JObject [("text", JString "a")]) (JObject [("text", JString "b")])
              (JString "a") (JString "b")); reflexivity.
  - apply Hnone. reflexivity.
Defined.

(** * The further properties at concrete inputs *)

Lemma unterminated_tail_witness :
  read_chunks initial [bytes "event: content|data: {'text':'Hi'}||"]
  = ([Call (OnContent (JString "Hi"))], Continue (between_lines "" true)) /\
  exists st',
    read_chunks initial ([bytes "event: content|data: {'text':'Hi'}||"]
                         ++ [bytes "event: conte"])
    = ([Call (OnContent (JString "Hi"))], Continue st') /\
    dispatch st' = dispatch (between_lines "" true) /\
    on_stream_end st' = on_stream_end (between_lines "" true).
Proof.
  split; [reflexivity|].
  apply (unterminated_tail_is_discarded
           [bytes "event: content|data: {'text':'Hi'}||"]
           (bytes "event: conte")
           [Call (OnContent (JString "Hi"))] (between_lines "" true));
    reflexivity.
Defined.

Lemma error_frame_witness :
  JSON_parse (wire "{'message':'rate limited'}")
  = Some (JObject [("message", JString "rate limited")]) /\
  unprintable (Some (JString "rate limited")) = false /\
  read_chunks initial
    [bytes "event: error|data: {'message':'rate limited'}||event: content|data: {'text':'late'}|";
     bytes "event: done|data: {}||"]
  = ([] ++ [ClearTimeout; Call (OnError (new_Error "rate limited"))], Return).
Proof.
  split; [reflexivity|]. split; [reflexivity|].
  refine (proj1 (error_frame_ends_the_session
                   initial _ _ ["event: error"]
                   [""; "event: content"; wire "data: {'text':'late'}"] ""
                   [] {| currentEvent := "error"; hasReceivedContent := false |}
                   (wire "{'message':'rate limited'}")
                   (JObject [("message", JString "rate limited")])
                   (Some (JString "rate limited")) _ _ _ _ _) _);
    reflexivity.
Defined.

(** An [error] event whose message cannot be printed: [new Error] throws
    after [clearTimeout()], the frame is dropped, and the session goes on
    without a timer. *)
Example error_with_unprintable_message_is_dropped :
  streamCompletionWithEvents
    (timed_stream 0 [(10, "event: error|data: {'message':{'toString':1}}||");
                     (40000, "event: content|data: {'text':'late'}||")] 0)%N
  = [SetTimeout 30000; ClearTimeout; Call (OnContent (JString "late"));
     ClearTimeout; Call OnComplete; ReleaseLock].
Proof. reflexivity. Qed.

Lemma unknown_lines_witness :
  for_lines (dispatch initial)
            (["event: content"; wire "data: {'text':'a'}"] ++ ": keep-alive"
               :: [wire "data: {'text':'b'}"])
  = for_lines (dispatch initial)
              (["event: content"; wire "data: {'text':'a'}"] ++ [wire "data: {'text':'b'}"]).
Proof.
  apply (unknown_lines_and_events_are_ignored
           (dispatch initial) {| currentEvent := "content"; hasReceivedContent := true |}
           ["event: content"; wire "data: {'text':'a'}"] [wire "data: {'text':'b'}"]
           ": keep-alive" [Call (OnContent (JString "a"))]).
  - reflexivity.
  - left. repeat split. discriminate.
Defined.

Lemma reader_released_witness :
  stalls (stream ["event: content|data: {'text':'Hi'}||"]) = false /\
  releases (streamCompletionWithEvents (stream ["event: content|data: {'text':'Hi'}||"]))
  = 1.
Proof.
  split; [reflexivity|].
  apply (proj2 (reader_is_released_exactly_once
                  (stream ["event: content|data: {'text':'Hi'}||"]))).
  reflexivity.
Defined.

(** A session that never ends never releases the reader it acquired. *)
Example stalled_stream_keeps_the_lock :
  streamCompletionWithEvents (after 120%N (Resolved silent_stream))
  = [SetTimeout 30000; ClearTimeout] /\
  releases (streamCompletionWithEvents (after 120%N (Resolved silent_stream))) = 0.
Proof. split; reflexivity. Qed.

Definition unavailable : Response :=
  {| ok := false; status := 503; statusText := "Service Unavailable";
     json := parse (wire "{'detail':'NetworkError when reaching the model'}");
     body := None |}.

Lemma http_failure_witness :
  (latency (after 120%N (Resolved unavailable)) <= REQUEST_TIMEOUT_MS)%N /\
  streamCompletionWithEvents (after 120%N (Resolved unavailable))
  = [SetTimeout REQUEST_TIMEOUT_MS; ClearTimeout; ClearTimeout;
     Call (OnError networkError)].
Proof.
  split; [now apply N.leb_le|].
  apply (http_failure_is_reported (after 120%N (Resolved unavailable)) unavailable);
    [reflexivity | now apply N.leb_le | reflexivity].
Defined.

(** A failure whose detail cannot be printed: [new Error(errorMessage)]
    throws, and [onError] gets the [TypeError]. *)
Example unprintable_detail_is_a_TypeError :
  streamCompletionWithEvents
    (after 120%N
       (Resolved {| ok := false; status := 500; statusText := "Internal Server Error";
                    json := parse (wire "{'detail':{'toString':1}}");
                    body := None |}))
  = [SetTimeout 30000; ClearTimeout; ClearTimeout; Call (OnError conversionError)].
Proof. reflexivity. Qed.

Definition dropped_body : Body :=
  {| chunks := [after 800%N (bytes "event: content|data: {'text':'partial'}|")];
     ending := after 5000%N
                 (StreamFails (ThrowError {| err_name := "TypeError";
                                             err_message := "network error" |})) |}.

Definition dropped_response : Response :=
  {| ok := true; status := 200; statusText := "OK"; json := None;
     body := Some dropped_body |}.

Lemma failed_read_witness :
  (120 + total_latency (chunks dropped_body) (ending dropped_body) <= REQUEST_TIMEOUT_MS)%N /\
  calls (streamCompletionWithEvents (after 120%N (Resolved dropped_response)))
  = [OnContent (JString "partial");
     OnError {| err_name := "TypeError"; err_message := "network error" |}] /\
  count is_OnComplete (streamCompletionWithEvents (after 120%N (Resolved dropped_response)))
  = 0.
Proof.
  split; [now apply N.leb_le|].
  destruct (failed_read_ends_with_onError
              120%N dropped_response dropped_body
              (ThrowError {| err_name := "TypeError"; err_message := "network error" |})
              [Call (OnContent (JString "partial"))] (between_lines "content" true))
    as [Heq Hnone]; try reflexivity; [now apply N.leb_le|].
  split; [now rewrite Heq | exact Hnone].
Defined.

Lemma terminal_last_witness :
  never_ends (stream ["event: content|data: {'text':'Hi'}||event: done|data: {}||"])
  = false /\
  exists deliveries last,
    calls (streamCompletionWithEvents
             (stream ["event: content|data: {'text':'Hi'}||event: done|data: {}||"]))
    = deliveries ++ [last] /\
    is_terminal last = true /\
    forallb (fun c => negb (is_terminal c)) deliveries = true.
Proof.
  split; [reflexivity|].
  apply (proj1 (terminal_callback_comes_last
                  (stream ["event: content|data: {'text':'Hi'}||event: done|data: {}||"]))).
  reflexivity.
Defined.

Lemma null_error_witness :
  existsb is_TimerFires
    (streamCompletionWithEvents
       (timed_stream 0 [(10, "event: error|data: null||");
                        (40000, "event: content|data: {'text':'late'}||")] 0)%N)
  = false.
Proof.
  refine (proj2 null_error_payload_disarms_the_timeout 0%N _ _
            (after 10%N (bytes "event: error|data: null||"))
            [after 40000%N (bytes "event: content|data: {'text':'late'}||")]
            [ClearTimeout] (between_lines "" false) _ _ _ _ _ _);
    try reflexivity.
  now apply N.leb_le.
Defined.

Lemma sources_frame_witness :
  JSON_parse (wire "[{'id':'1','title':'Notes','type':'file'},{'id':'2'}]")
  = Some (JArray [JObject [("id", JString "1"); ("title", JString "Notes");
                           ("type", JString "file")];
                  JObject [("id", JString "2")]]) /\
  handle_line {| currentEvent := "sources"; hasReceivedContent := false |}
              ("data: " +++ wire "[{'id':'1','title':'Notes','type':'file'},{'id':'2'}]")
  = ([Call (OnSources
              [Source.mk Value (Some (JString "1")) (Some (JString "Notes")) None None
                         (Some (JString "file"));
               Source.mk Value (Some (JString "2")) None None None None])],
     Continue {| currentEvent := "sources"; hasReceivedContent := false |}).
Proof.
  split; [reflexivity|].
  apply (sources_frame_is_all_or_nothing
           {| currentEvent := "sources"; hasReceivedContent := false |}
           (wire "[{'id':'1','title':'Notes','type':'file'},{'id':'2'}]")
           (JArray [JObject [("id", JString "1"); ("title", JString "Notes");
                             ("type", JString "file")];
                    JObject [("id", JString "2")]]));
    reflexivity.
Defined.

Lemma one_session_witness :
  handleSendMessage clock0 true typed = Some sent /\
  handleSendMessage clock0 true
    (set_input "again"
       (deliver_all (botMsgId sent) true
                    [OnReasoning (JString "hm"); OnContent (JString "Hi")] (state sent)))
  = None.
Proof.
  split; [reflexivity|].
  refine (proj2 (proj1 (proj2 (proj2 one_session_at_a_time)) clock0 true typed sent
                       [OnReasoning (JString "hm"); OnContent (JString "Hi")]
                       "again" clock0 true _ _));
    reflexivity.
Defined.

Definition source_a : SourceT :=
  Source.mk Value (Some (JString "a")) None None None None.

Definition source_b : SourceT :=
  Source.mk Value (Some (JString "b")) None None None None.

Lemma sources_replaced_witness :
  handleSendMessage clock0 true typed = Some sent /\
  exists m,
    bot_message (deliver_all (botMsgId sent) true
                   [OnSources [source_a]; OnContent (JString "Hi"); OnSources [source_b]]
                   (state sent)) = Some m /\
    Message.sources m = Some [source_b].
Proof.
  split; [reflexivity|].
  apply (sources_are_replaced_wholesale
           clock0 true typed sent
           [OnSources [source_a]; OnContent (JString "Hi"); OnSources [source_b]]).
  reflexivity.
Defined.

Lemma retry_resends_witness :
  handleSendMessage clock0 true typed = Some sent /\
  exists restored started',
    handleRetry (onError (botMsgId sent) (new_Error "boom")
                   (deliver_all (botMsgId sent) true [OnContent (JString "Hi")] (state sent)))
    = (restored, true) /\
    messages restored = messages typed /\
    input restored = "hello" /\
    error restored = None /\
    handleSendMessage clock0 false restored = Some started' /\
    map role_and_content (newMessages started') = [(Message.user, "hello")].
Proof.
  split; [reflexivity|].
  apply (retry_resends_the_failed_message
           clock0 clock0 true false typed sent [OnContent (JString "Hi")] (new_Error "boom"));
    reflexivity.
Defined.

Lemma completion_without_deltas_witness :
  handleSendMessage clock0 true typed = Some sent /\
  saveRequests (onComplete (botMsgId sent) true
                  (run (botMsgId sent) true
                       [Renders; Delivers (OnSources [source_a]);
                        Delivers (OnContent (JString "Hi"))]
                       (state sent)))
  = saveRequests (state sent).
Proof.
  split; [reflexivity|].
  apply (completion_without_deltas_saves_nothing
           clock0 true typed sent
           [Renders; Delivers (OnSources [source_a]); Delivers (OnContent (JString "Hi"))]);
    reflexivity.
Defined.

(** Once React has run the updater of a delta, [onComplete] saves the
    transcript that updater left, without the deltas that came after the
    render. *)
Example completion_saves_the_rendered_transcript :
  map (map (fun m => Message.content m))
      (saveRequests (onComplete (botMsgId sent) true
                       (run (botMsgId sent) true
                            [Delivers (OnContent (JString "Hel")); Renders;
                             Delivers (OnContent (JString "lo"))]
                            (state sent))))
  = [["hello"]; ["hello"; "Hel"]] /\
  shown (run (botMsgId sent) true
             [Delivers (OnContent (JString "Hel")); Renders;
              Delivers (OnContent (JString "lo"))]
             (state sent))
  = Some "Hello".
Proof. split; reflexivity. Qed.

Lemma indicator_witness :
  handleSendMessage clock0 true typed = Some sent /\
  exists m,
    bot_message (deliver_all (botMsgId sent) true
                   [OnReasoning (JString "hm"); OnSources [source_a]] (state sent))
    = Some m /\
    indicator m = Some "Analyzing documents...".
Proof.
  split; [reflexivity|].
  apply (indicator_follows_the_session
           clock0 true typed sent [OnReasoning (JString "hm"); OnSources [source_a]]).
  reflexivity.
Defined.

Definition missing : Response :=
  {| ok := false; status := 404; statusText := "Not Found";
     json := parse (wire "{'detail':'Chat not found'}"); body := None |}.


(** A 404 whose detail cannot be printed: the client throws a [TypeError],
    which has no status, and [saveChat] sends no second request. *)
Definition unprintable_404 : Response :=
  {| ok := false; status := 404; statusText := "Not Found";
     json := parse (wire "{'detail':{'toString':1}}"); body := None |}.

Example unprintable_404_creates_nothing :
  Client.handleResponse unprintable_404 = inl Client.ConversionFailure /\
  map req_method
      (Client.requested
         (snd (ChatApi.saveChat "" "42" [] None
                 {| Client.replies := [Client.Answer unprintable_404];
                    Client.requested := [] |})))
  = [PUT] /\
  map req_method
      (Client.requested
         (snd (ChatApi.saveChat "" "42" [] None
                 {| Client.replies := [Client.Answer missing];
                    Client.requested := [] |})))
  = [PUT; POST].
Proof. repeat split; reflexivity. Qed.



Definition after_failure : Page :=
  {| app := onError (botMsgId sent) (new_Error "boom") (state sent);
     sessionId := "1699999999999"; deleteConfirmId := None; isSidebarOpen := false |}.

Lemma new_chat_witness :
  lastSendRef (app after_failure) = Some {| snap_messages := []; snap_input := "hello" |} /\
  exists restored,
    handleRetry (app (handleNewChat 1700000005000 after_failure)) = (restored, true) /\
    messages restored = [] /\
    input restored = "hello".
Proof.
  split; [reflexivity|].
  refine (proj2 (proj2 (proj2 (proj2 (proj2 (proj2
            (new_chat_keeps_the_retry_snapshot 1700000005000 after_failure))))))
            {| snap_messages := []; snap_input := "hello" |} _).
  reflexivity.
Defined.


